(** * Local_RAG: the ingestion-to-index pipeline of [rag-api/main.py]

    A shallow embedding of the chunker, the runtime configuration, the text
    extractor dispatch, the embedding client and the ingestion entry points,
    with the properties the design document states about them.

    Conventions:
    - Python [int] is [Z]; counters that only grow from zero are [nat];
    - a Python [str] is a list of characters ([str]); characters are the
      code points below 256;
    - [bytes] is a list of [Byte.byte];
    - a Python function that may raise returns a [Res];
    - the remote collaborators (embedding service, HTTP, vector store
      availability, uuid source) and the third-party extraction libraries
      are the members of the class [Collab]. *)

From Stdlib Require Import List ZArith Lia Bool Arith.
From Stdlib Require Import Strings.Ascii Strings.String Strings.Byte Floats.
From Stdlib Require Import DecimalString.
Import ListNotations.

Local Open Scope Z_scope.

(** ** Python strings and slices *)

Definition str := list ascii.
Definition bytes := list byte.

(** A string literal as a [str]. *)
Definition lit (s : string) : str := list_ascii_of_string s.

Definition len {A : Type} (l : list A) : Z := Z.of_nat (List.length l).

(** Normalisation of one slice bound against a sequence of length [n]:
    a negative bound counts from the end, and every bound is clamped
    into [0, n]. *)
Definition slice_bound (n i : Z) : Z :=
  if i <? 0 then Z.max 0 (i + n) else Z.min i n.

(** [s[start:stop]] *)
Definition py_slice {A : Type} (s : list A) (start stop : Z) : list A :=
  let n := len s in
  let a := slice_bound n start in
  let b := slice_bound n stop in
  firstn (Z.to_nat (b - a)) (skipn (Z.to_nat a) s).

(** Truthiness of a sequence: [bool(s)]. *)
Definition truthy {A : Type} (s : list A) : bool :=
  match s with [] => false | _ :: _ => true end.

(** [str.isspace] on one character (code points below 256). *)
Definition isspace (c : ascii) : bool :=
  let n := nat_of_ascii c in
  ((9 <=? n) && (n <=? 13) || (28 <=? n) && (n <=? 32)
   || (n =? 133) || (n =? 160))%nat.

Fixpoint lstrip (s : str) : str :=
  match s with
  | [] => []
  | c :: s' => if isspace c then lstrip s' else s
  end.

Definition rstrip (s : str) : str := rev (lstrip (rev s)).

(** [s.strip()] *)
Definition strip (s : str) : str := rstrip (lstrip s).

(** [str.lower] on one character (code points below 256). *)
Definition lower_char (c : ascii) : ascii :=
  let n := nat_of_ascii c in
  if ((65 <=? n) && (n <=? 90)
      || (192 <=? n) && (n <=? 222) && negb (n =? 215))%nat
  then ascii_of_nat (n + 32) else c.

Definition lower (s : str) : str := map lower_char s.

Definition str_eqb (a b : str) : bool :=
  if list_eq_dec ascii_dec a b then true else false.

Fixpoint startswith (s p : str) : bool :=
  match p, s with
  | [], _ => true
  | _ :: _, [] => false
  | c :: p', d :: s' => Ascii.eqb c d && startswith s' p'
  end.

(** [s.endswith(suffix)] *)
Definition endswith (s suffix : str) : bool :=
  startswith (rev s) (rev suffix).

(** [sub in s] *)
Fixpoint contains (s sub : str) : bool :=
  startswith s sub ||
  match s with
  | [] => false
  | _ :: s' => contains s' sub
  end.

(** ** The chunker *)

(** The [while i < len(s)] loop of [chunks]; [None] when the fuel runs
    out before the loop condition fails. *)
Fixpoint chunks_loop (fuel : nat) (s : str) (size step : Z)
         (out : list str) (i : Z) : option (list str) :=
  match fuel with
  | O => None
  | S fuel' =>
      if i <? len s
      then chunks_loop fuel' s size step
                       (out ++ [py_slice s i (i + size)]) (i + step)
      else Some out
  end.

Definition chunks_fuel (fuel : nat) (s : str) (size overlap : Z)
  : option (list str) :=
  if truthy s
  then chunks_loop fuel s size (Z.max 1 (size - overlap)) [] 0
  else Some [].

(** [chunks(s, size, overlap)], run with one more unit of fuel than the
    text has characters. *)
Definition chunks (s : str) (size overlap : Z) : list str :=
  match chunks_fuel (S (List.length s)) s size overlap with
  | Some out => out
  | None => []
  end.

(** The chunk emitted at the [k]-th iteration from offset [i]. *)
Definition window (s : str) (size step i : Z) (k : nat) : str :=
  py_slice s (i + Z.of_nat k * step) (i + Z.of_nat k * step + size).

(** Ceiling of [a / b] for a positive [b]. *)
Definition ceil_div (a b : Z) : Z := (a + b - 1) / b.

(** ** Exceptions and results *)

Inductive exn : Type :=
| ValueError (msg : string)
| IndexError (msg : string)
| HTTPException (status_code : Z) (detail : str)
| LibraryError (msg : string).

Inductive Res (A : Type) : Type :=
| Ok (a : A)
| Raise (e : exn).
Arguments Ok {A} a.
Arguments Raise {A} e.

Definition is_ok {A : Type} (r : Res A) : bool :=
  match r with Ok _ => true | Raise _ => false end.

(** ** Batch partitioning *)

(** The groups [items[i:i+n]] for [i] in [range(0, len(items), n)], for a
    positive [n]; [fuel] bounds the number of groups. *)
Fixpoint groups {A : Type} (fuel : nat) (n : nat) (items : list A)
  : list (list A) :=
  match fuel with
  | O => []
  | S fuel' =>
      match items with
      | [] => []
      | _ :: _ => firstn n items :: groups fuel' n (skipn n items)
      end
  end.

(** [list(chunk_list(items, n))]: [range] raises on a zero step and is
    empty on a negative one. *)
Definition chunk_list {A : Type} (items : list A) (n : Z)
  : Res (list (list A)) :=
  if n =? 0 then Raise (ValueError "range() arg 3 must not be zero")
  else if n <? 0 then Ok []
  else Ok (groups (List.length items) (Z.to_nat n) items).

(** ** Runtime configuration *)

Record Config : Type := mkConfig {
  EMBED_BATCH : Z;
  UPSERT_BATCH : Z;
  CHUNK_SIZE : Z;
  CHUNK_OVERLAP : Z
}.

(** [RUNTIME] as built at import time when the environment overrides
    nothing. *)
Definition RUNTIME_default : Config :=
  {| EMBED_BATCH := 32; UPSERT_BATCH := 256;
     CHUNK_SIZE := 800; CHUNK_OVERLAP := 120 |}.

Record ConfigPatch : Type := mkPatch {
  p_EMBED_BATCH : option Z;
  p_UPSERT_BATCH : option Z;
  p_CHUNK_SIZE : option Z;
  p_CHUNK_OVERLAP : option Z
}.

Definition set_EMBED_BATCH (v : Z) (rt : Config) : Config :=
  mkConfig v (UPSERT_BATCH rt) (CHUNK_SIZE rt) (CHUNK_OVERLAP rt).
Definition set_UPSERT_BATCH (v : Z) (rt : Config) : Config :=
  mkConfig (EMBED_BATCH rt) v (CHUNK_SIZE rt) (CHUNK_OVERLAP rt).
Definition set_CHUNK_SIZE (v : Z) (rt : Config) : Config :=
  mkConfig (EMBED_BATCH rt) (UPSERT_BATCH rt) v (CHUNK_OVERLAP rt).
Definition set_CHUNK_OVERLAP (v : Z) (rt : Config) : Config :=
  mkConfig (EMBED_BATCH rt) (UPSERT_BATCH rt) (CHUNK_SIZE rt) v.

(** [if p.F is not None and test(p.F): RUNTIME[F] = int(p.F)], with the
    test reading the current [RUNTIME]. *)
Definition guarded_assign (field : option Z) (test : Z -> Config -> bool)
           (assign : Z -> Config -> Config) (rt : Config) : Config :=
  match field with
  | Some v => if test v rt then assign v rt else rt
  | None => rt
  end.

Record ConfigResponse : Type := mkResponse {
  ok : bool;
  merged : Config
}.

(** [set_config]: the four guarded assignments in source order, then the
    response built from the updated [RUNTIME]; the state [rt] is [RUNTIME]. *)
Definition set_config (p : ConfigPatch) (rt : Config)
  : ConfigResponse * Config :=
  let rt := guarded_assign (p_EMBED_BATCH p) (fun v _ => 0 <? v)
                           set_EMBED_BATCH rt in
  let rt := guarded_assign (p_UPSERT_BATCH p) (fun v _ => 0 <? v)
                           set_UPSERT_BATCH rt in
  let rt := guarded_assign (p_CHUNK_SIZE p) (fun v _ => 128 <=? v)
                           set_CHUNK_SIZE rt in
  let rt := guarded_assign (p_CHUNK_OVERLAP p)
                           (fun v rt => (0 <=? v) && (v <? CHUNK_SIZE rt))
                           set_CHUNK_OVERLAP rt in
  ({| ok := true; merged := rt |}, rt).

(** [get_config], restricted to the tunables. *)
Definition get_config (rt : Config) : Config := rt.

(** The runtime configuration after a sequence of patch requests. *)
Definition apply_patches (ps : list ConfigPatch) (rt : Config) : Config :=
  fold_left (fun rt p => snd (set_config p rt)) ps rt.

(** The part of the validation that every patch sequence does preserve. *)
Definition config_lower_bounds (rt : Config) : Prop :=
  128 <= CHUNK_SIZE rt /\ 0 <= CHUNK_OVERLAP rt /\
  0 < EMBED_BATCH rt /\ 0 < UPSERT_BATCH rt.

(** Patch requests used as examples. *)
Definition patch_mixed : ConfigPatch :=
  {| p_EMBED_BATCH := Some 8; p_UPSERT_BATCH := None;
     p_CHUNK_SIZE := Some 100; p_CHUNK_OVERLAP := Some 64 |}.
Definition patch_overlap_500 : ConfigPatch :=
  {| p_EMBED_BATCH := None; p_UPSERT_BATCH := None;
     p_CHUNK_SIZE := None; p_CHUNK_OVERLAP := Some 500 |}.
Definition patch_size_128 : ConfigPatch :=
  {| p_EMBED_BATCH := None; p_UPSERT_BATCH := None;
     p_CHUNK_SIZE := Some 128; p_CHUNK_OVERLAP := None |}.

(** ** Vectors, points and the collaborators *)

Definition vec := list float.

(** [[0.0] * 768] *)
Definition zero_vector : vec := repeat 0%float 768.

(** The per-chunk metadata dictionary [{"project": ..., "file": ...}]. *)
Record Meta : Type := mkMeta {
  m_project : str;
  m_file : str
}.

(** The payload dictionary [{"text": ..., **m}]. *)
Record Payload : Type := mkPayload {
  text : str;
  project : str;
  file : str
}.

Definition payload_of (ch : str) (m : Meta) : Payload :=
  {| text := ch; project := m_project m; file := m_file m |}.

Record PointStruct : Type := mkPoint {
  id : str;
  vector : vec;
  payload : Payload
}.

(** Everything outside the process.  [remote] is the state of the outside
    world; a call to a collaborator takes it and returns it changed.
    - [post_embeddings prompt]: the POST to [/api/embeddings] followed by
      [raise_for_status] and the lookup of ["embedding"] in the JSON body;
    - [requests_get url headers]: [requests.get], giving the status code
      and the body;
    - [uuid4]: [str(uuid.uuid4())];
    - [qdrant_request]: the transport of one request to the vector store,
      which raises when the store is unreachable or answers with an error;
    - [extract_text_from_pdf] and the five other structured extractors:
      their bodies drive the document libraries (pypdf, python-docx,
      python-pptx, pandas) and are taken as given; each may raise;
    - [bytes_decode]: [b.decode("utf-8", errors="ignore")]. *)
Class Collab : Type := {
  remote : Type;
  post_embeddings : str -> remote -> Res vec * remote;
  requests_get : str -> list (str * str) -> remote -> Res (Z * bytes) * remote;
  uuid4 : remote -> str * remote;
  qdrant_request : remote -> Res unit * remote;
  extract_text_from_pdf : bytes -> Res str;
  extract_text_from_docx : bytes -> Res str;
  extract_text_from_pptx : bytes -> Res str;
  extract_text_from_csv : bytes -> Res str;
  extract_text_from_xlsx : bytes -> Res str;
  extract_text_from_xls : bytes -> Res str;
  bytes_decode : bytes -> Res str
}.

(** [COLLECTION], when the environment does not override it. *)
Definition COLL : str := lit "docs".

(** ** The text extractor *)

Section Extractor.
Context {C : Collab}.

Definition extract_text_from_txt (b : bytes) : Res str := bytes_decode b.

(** [x or ""] *)
Definition or_empty (x : option str) : str :=
  match x with Some s => s | None => [] end.

(** The [try] block of [extract_text]: the result of the first branch
    whose test holds, or [None] when control falls out of the block. *)
Definition extract_dispatch (name ct : str) (b : bytes) : option (Res str) :=
  if endswith name (lit ".pdf") || contains ct (lit "pdf")
  then Some (extract_text_from_pdf b)
  else if endswith name (lit ".docx") || contains ct (lit "word")
  then Some (extract_text_from_docx b)
  else if endswith name (lit ".pptx") || contains ct (lit "powerpoint")
  then Some (extract_text_from_pptx b)
  else if endswith name (lit ".csv") || contains ct (lit "csv")
  then Some (extract_text_from_csv b)
  else if endswith name (lit ".xlsx")
  then Some (extract_text_from_xlsx b)
  else if endswith name (lit ".xls")
  then Some (extract_text_from_xls b)
  else if endswith name (lit ".md") || endswith name (lit ".txt")
          || contains ct (lit "text")
  then Some (extract_text_from_txt b)
  else None.

Definition extract_text (filename content_type : option str) (b : bytes)
  : Res str :=
  let name := lower (or_empty filename) in
  let ct := lower (or_empty content_type) in
  match extract_dispatch name ct b with
  | Some (Ok s) => Ok s
  | Some (Raise _) =>
      match bytes_decode b with
      | Ok s => Ok s
      | Raise _ => Ok []
      end
  | None => bytes_decode b
  end.

End Extractor.

(** ** The process state and its monad *)

Section Pipeline.
Context {C : Collab}.

(** [RUNTIME], the collections of the store with their vector size, the
    points handed to the store so far by the upsert calls that returned
    (in order), and the outside world. *)
Record World : Type := mkWorld {
  RUNTIME : Config;
  collections : list (str * nat);
  upserted : list PointStruct;
  outside : remote
}.

Definition M (A : Type) : Type := World -> Res A * World.

Definition ret {A : Type} (a : A) : M A := fun w => (Ok a, w).

Definition raise {A : Type} (e : exn) : M A := fun w => (Raise e, w).

Definition bind {A B : Type} (c : M A) (k : A -> M B) : M B :=
  fun w =>
    match c w with
    | (Ok a, w') => k a w'
    | (Raise e, w') => (Raise e, w')
    end.

(** [try: c except Exception: h] *)
Definition catch {A : Type} (c : M A) (h : exn -> M A) : M A :=
  fun w =>
    match c w with
    | (Ok a, w') => (Ok a, w')
    | (Raise e, w') => h e w'
    end.

Definition lift_res {A : Type} (r : Res A) : M A := fun w => (r, w).

Definition read_runtime : M Config := fun w => (Ok (RUNTIME w), w).

Definition set_outside (w : World) (o : remote) : World :=
  mkWorld (RUNTIME w) (collections w) (upserted w) o.

(** A call to a collaborator that may raise. *)
Definition call {A : Type} (f : remote -> Res A * remote) : M A :=
  fun w => let (r, o) := f (outside w) in (r, set_outside w o).

(** A call to a collaborator that does not raise. *)
Definition call_total {A : Type} (f : remote -> A * remote) : M A :=
  fun w => let (a, o) := f (outside w) in (Ok a, set_outside w o).

End Pipeline.

Notation "x <- c ;; k" := (bind c (fun x => k))
  (at level 61, c at next level, right associativity).

Section Service.
Context {C : Collab}.

(** Python indexing [l[k]]: a negative index counts from the end. *)
Definition py_index {A : Type} (l : list A) (k : Z) : Res A :=
  let k' := if k <? 0 then k + len l else k in
  if k' <? 0 then Raise (IndexError "list index out of range")
  else match nth_error l (Z.to_nat k') with
       | Some a => Ok a
       | None => Raise (IndexError "list index out of range")
       end.

(** ** The embedding client *)

(** [text and text.strip()] *)
Definition nonblank (t : str) : bool := truthy t && truthy (strip t).

(** The [for text in text_list] loop of [embed_batch]. *)
Fixpoint embed_batch_loop (text_list : list str) (embeddings : list vec)
  : M (list vec) :=
  match text_list with
  | [] => ret embeddings
  | t :: rest =>
      if nonblank t
      then data <- call (post_embeddings t) ;;
           embed_batch_loop rest (embeddings ++ [data])
      else embed_batch_loop rest (embeddings ++ [zero_vector])
  end.

Definition embed_batch (text_list : list str) : M (list vec) :=
  if truthy text_list then embed_batch_loop text_list [] else ret [].

Definition embed (t : str) : M vec := call (post_embeddings t).

(** ** The vector store gateway *)

(** [qdrant.get_collections()], as the list of names. *)
Definition get_collections : M (list str) :=
  _ <- call qdrant_request ;;
  fun w => (Ok (map fst (collections w)), w).

(** [qdrant.recreate_collection(name, VectorParams(size=dim, ...))]: the
    collection of that name, if any, is replaced. *)
Definition recreate_collection (name : str) (dim : nat) : M unit :=
  _ <- call qdrant_request ;;
  fun w =>
    (Ok tt,
     mkWorld (RUNTIME w)
             ((name, dim) :: filter (fun c => negb (str_eqb (fst c) name))
                                    (collections w))
             (upserted w) (outside w)).

Definition ensure_collection (dim : nat) : M unit :=
  names <- get_collections ;;
  if existsb (str_eqb COLL) names then ret tt
  else recreate_collection COLL dim.

(** [qdrant.upsert(collection_name=COLL, points=up)] *)
Definition qdrant_upsert (up : list PointStruct) : M unit :=
  _ <- call qdrant_request ;;
  fun w =>
    (Ok tt, mkWorld (RUNTIME w) (collections w) (upserted w ++ up) (outside w)).

(** The startup hook. *)
Definition _start : M unit :=
  v <- embed (lit "dimension probe") ;;
  ensure_collection (List.length v).

(** ** The ingestion orchestrator *)

(** [ingest_bytes]; the two accumulators are passed in and returned. *)
Definition ingest_bytes (filename : str) (content_type : str) (raw : bytes)
           (proj : str) (chunks_out : list str) (meta_out : list Meta)
  : M (list str * list Meta) :=
  t <- lift_res (extract_text (Some filename) (Some content_type) raw) ;;
  rt <- read_runtime ;;
  let chs := chunks t (CHUNK_SIZE rt) (CHUNK_OVERLAP rt) in
  ret (chunks_out ++ chs,
       meta_out ++ map (fun _ => mkMeta proj filename) chs).

(** The body of [for i, v in enumerate(vecs)] in [ingest]: the metadata
    is looked up first, at [total_points + i] when that is in range and
    at [-1] otherwise. *)
Fixpoint ingest_points (ch_batch : list str) (meta : list Meta)
         (total_points i : nat) (vecs : list vec) (pts : list PointStruct)
  : M (list PointStruct) :=
  match vecs with
  | [] => ret pts
  | v :: vecs' =>
      let k := Z.of_nat (total_points + i) in
      m <- lift_res (py_index meta (if k <? len meta then k else -1)) ;;
      u <- call_total uuid4 ;;
      t <- lift_res (py_index ch_batch (Z.of_nat i)) ;;
      ingest_points ch_batch meta total_points (S i) vecs'
                    (pts ++ [mkPoint u v (payload_of t m)])
  end.

(** The list comprehension of [ingest_urls] (and, word for word, of
    [ingest_sharepoint]): id, then [ch_batch[i]], then
    [meta[total_points + i]]. *)
Fixpoint ingest_urls_points (ch_batch : list str) (meta : list Meta)
         (total_points i : nat) (vecs : list vec) (pts : list PointStruct)
  : M (list PointStruct) :=
  match vecs with
  | [] => ret pts
  | v :: vecs' =>
      u <- call_total uuid4 ;;
      t <- lift_res (py_index ch_batch (Z.of_nat i)) ;;
      m <- lift_res (py_index meta (Z.of_nat (total_points + i))) ;;
      ingest_urls_points ch_batch meta total_points (S i) vecs'
                         (pts ++ [mkPoint u v (payload_of t m)])
  end.

(** Which of the two ways of building the points of a batch is used. *)
Inductive entry_point : Type := Ingest | IngestUrls.

Definition make_points (ep : entry_point) (ch_batch : list str)
           (meta : list Meta) (total_points : nat) (vecs : list vec)
  : M (list PointStruct) :=
  match ep with
  | Ingest => ingest_points ch_batch meta total_points 0 vecs []
  | IngestUrls => ingest_urls_points ch_batch meta total_points 0 vecs []
  end.

(** [for up in chunk_list(pts, ...): qdrant.upsert(...); total_points += len(up)] *)
Fixpoint upsert_loop (ups : list (list PointStruct)) (total_points : nat)
  : M nat :=
  match ups with
  | [] => ret total_points
  | up :: rest =>
      _ <- qdrant_upsert up ;;
      upsert_loop rest (total_points + List.length up)
  end.

(** [for ch_batch in chunk_list(all_chunks, ...)]: embed, build the points,
    upsert them in sub-batches. *)
Fixpoint store_loop (ep : entry_point) (batches : list (list str))
         (meta : list Meta) (total_points : nat) : M nat :=
  match batches with
  | [] => ret total_points
  | ch_batch :: rest =>
      vecs <- embed_batch ch_batch ;;
      pts <- make_points ep ch_batch meta total_points vecs ;;
      rt <- read_runtime ;;
      ups <- lift_res (chunk_list pts (UPSERT_BATCH rt)) ;;
      total_points <- upsert_loop ups total_points ;;
      store_loop ep rest meta total_points
  end.

(** The second half of every ingestion entry point, from
    [total_points = 0] to the final count. *)
Definition store_chunks (ep : entry_point) (all_chunks : list str)
           (meta : list Meta) : M nat :=
  rt <- read_runtime ;;
  batches <- lift_res (chunk_list all_chunks (EMBED_BATCH rt)) ;;
  store_loop ep batches meta 0.

Record UploadFile : Type := mkUpload {
  filename : str;
  content_type : option str;
  content : bytes
}.

Record IngestResponse : Type := mkIngestResponse {
  ir_ok : bool;
  ir_project : str;
  ir_chunks : nat;
  ir_files : list str
}.

(** The first loop of [ingest]. *)
Fixpoint ingest_read (files : list UploadFile) (proj : str)
         (all_chunks : list str) (meta : list Meta)
  : M (list str * list Meta) :=
  match files with
  | [] => ret (all_chunks, meta)
  | f :: rest =>
      acc <- ingest_bytes (filename f) (or_empty (content_type f)) (content f)
                          proj all_chunks meta ;;
      ingest_read rest proj (fst acc) (snd acc)
  end.

Definition ingest (files : list UploadFile) (proj : str) : M IngestResponse :=
  acc <- ingest_read files proj [] [] ;;
  total_points <- store_chunks Ingest (fst acc) (snd acc) ;;
  ret (mkIngestResponse true proj total_points (map filename files)).

(** *** URL ingestion *)

(** [s.split(sep)[0]] for a one-character separator. *)
Fixpoint before_first (sep : ascii) (s : str) : str :=
  match s with
  | [] => []
  | c :: s' => if Ascii.eqb c sep then [] else c :: before_first sep s'
  end.

(** [s.rstrip(ch)] for one character. *)
Fixpoint lstrip_char (ch : ascii) (s : str) : str :=
  match s with
  | [] => []
  | c :: s' => if Ascii.eqb c ch then lstrip_char ch s' else s
  end.

Definition rstrip_char (ch : ascii) (s : str) : str :=
  rev (lstrip_char ch (rev s)).

(** [s.split(sep)[-1]] for a one-character separator. *)
Definition after_last (sep : ascii) (s : str) : str :=
  rev (before_first sep (rev s)).

(** The decimal digits of an integer, as [f"{n}"] prints it. *)
Definition show_int (n : Z) : str :=
  list_ascii_of_string (DecimalString.NilZero.string_of_int (Z.to_int n)).

(** The headers of [http_get]: the bearer token, when there is one. *)
Definition auth_headers (bearer : option str) : list (str * str) :=
  if truthy (or_empty bearer)
  then [(lit "Authorization", lit "Bearer " ++ or_empty bearer)]
  else [].

Definition http_get (url : str) (bearer : option str) : M bytes :=
  let headers := auth_headers bearer in
  r <- call (requests_get url headers) ;;
  if negb (fst r =? 200)
  then raise (HTTPException 502
                (lit "Fetch failed " ++ show_int (fst r) ++ lit " for " ++ url))
  else ret (snd r).

(** The content type [ingest_urls] infers from the lowered URL. *)
Definition ctype_of (lowered : str) : str :=
  if endswith lowered (lit ".pdf") then lit "application/pdf"
  else if endswith lowered (lit ".docx")
  then lit "application/vnd.openxmlformats-officedocument.wordprocessingml.document"
  else if endswith lowered (lit ".pptx")
  then lit "application/vnd.openxmlformats-officedocument.presentationml.presentation"
  else if endswith lowered (lit ".xlsx")
  then lit "application/vnd.openxmlformats-officedocument.spreadsheetml.sheet"
  else if endswith lowered (lit ".xls") then lit "application/vnd.ms-excel"
  else if endswith lowered (lit ".csv") then lit "text/csv"
  else if endswith lowered (lit ".md") || endswith lowered (lit ".txt")
  then lit "text/plain"
  else lit "application/octet-stream".

(** [u.split("?")[0].rstrip("/").split("/")[-1] or "downloaded"] *)
Definition fname_of (u : str) : str :=
  let n := after_last "/" (rstrip_char "/" (before_first "?" u)) in
  if truthy n then n else lit "downloaded".

(** The accumulators of the first loop of [ingest_urls]. *)
Record Fetched : Type := mkFetched {
  f_chunks : list str;
  f_meta : list Meta;
  f_count : nat
}.

(** The [try] block for one URL. *)
Definition fetch_url (u : str) (bearer : option str) (proj : str)
           (acc : Fetched) : M Fetched :=
  data <- http_get u bearer ;;
  let ctype := ctype_of (lower u) in
  let fname := fname_of u in
  out <- ingest_bytes fname ctype data proj (f_chunks acc) (f_meta acc) ;;
  ret (mkFetched (fst out) (snd out) (f_count acc + 1)).

(** [for u in body.urls: try: ... except Exception: continue]; the
    message printed by the handler is not modelled. *)
Fixpoint fetch_urls (urls : list str) (bearer : option str) (proj : str)
         (acc : Fetched) : M Fetched :=
  match urls with
  | [] => ret acc
  | u :: rest =>
      acc' <- catch (fetch_url u bearer proj acc) (fun _ => ret acc) ;;
      fetch_urls rest bearer proj acc'
  end.

Record UrlIngest : Type := mkUrlIngest {
  ui_project : str;
  ui_urls : list str;
  ui_bearer : option str
}.

Record UrlResponse : Type := mkUrlResponse {
  ur_ok : bool;
  ur_project : str;
  ur_fetched : nat;
  ur_chunks : nat
}.

Definition ingest_urls (body : UrlIngest) : M UrlResponse :=
  acc <- fetch_urls (ui_urls body) (ui_bearer body) (ui_project body)
                    (mkFetched [] [] 0) ;;
  total_points <- store_chunks IngestUrls (f_chunks acc) (f_meta acc) ;;
  ret (mkUrlResponse true (ui_project body) (f_count acc) total_points).

End Service.


(** ** Specification-side definitions *)

Section Specs.
Context {C : Collab}.

(** What [embed_batch] must put at the position of text [t]: the zero
    vector for a blank text, a vector the embedding service returned for
    the prompt [t] otherwise. *)
Definition embedding_of (t : str) (v : vec) : Prop :=
  if nonblank t
  then exists o : remote, fst (post_embeddings t o) = Ok v
  else v = zero_vector.

(** The metadata a stored point carries. *)
Definition meta_of (p : PointStruct) : Meta :=
  mkMeta (project (payload p)) (file (payload p)).

(** The points [pts] pair, position by position, the vector of a chunk
    with that chunk's text and with the metadata record [base] places
    further on. *)
Definition aligned (all_chunks : list str) (meta : list Meta) (base : nat)
           (pts : list PointStruct) : Prop :=
  forall (k : nat) (p : PointStruct),
    nth_error pts k = Some p ->
    nth_error all_chunks k = Some (text (payload p)) /\
    nth_error meta (base + k) = Some (meta_of p) /\
    embedding_of (text (payload p)) (vector p).

(** [embed_batch] without its accumulator. *)
Fixpoint embed_each (text_list : list str) : M (list vec) :=
  match text_list with
  | [] => ret []
  | t :: rest =>
      v <- (if nonblank t then call (post_embeddings t) else ret zero_vector) ;;
      vs <- embed_each rest ;;
      ret (v :: vs)
  end.

(** The worlds that differ only in the state of the outside. *)
Definition same_process (w w' : World) : Prop :=
  RUNTIME w' = RUNTIME w /\ collections w' = collections w /\
  upserted w' = upserted w.

(** The embedding service answers every prompt and the vector store
    every request. *)
Definition services_up : Prop :=
  (forall (t : str) (o : remote), is_ok (fst (post_embeddings t o)) = true) /\
  (forall o : remote, is_ok (fst (qdrant_request o)) = true).

(** The answers of the outside world to the GET requests for [urls], one
    after the other, and the state it is left in. *)
Fixpoint fetch_trace (urls : list str) (bearer : option str) (o : remote)
  : list (str * Res (Z * bytes)) * remote :=
  match urls with
  | [] => ([], o)
  | u :: rest =>
      let (r, o') := requests_get u (auth_headers bearer) o in
      let (tr, o'') := fetch_trace rest bearer o' in
      ((u, r) :: tr, o'')
  end.

(** A URL is processed successfully when its GET returns with status 200
    and the extraction of the body returns; the document then has the
    file name taken from the URL and the chunks of its text. *)
Definition document_of (rt : Config) (a : str * Res (Z * bytes))
  : option (str * list str) :=
  match snd a with
  | Ok (status, data) =>
      if status =? 200
      then match extract_text (Some (fname_of (fst a)))
                              (Some (ctype_of (lower (fst a)))) data with
           | Ok t => Some (fname_of (fst a),
                           chunks t (CHUNK_SIZE rt) (CHUNK_OVERLAP rt))
           | Raise _ => None
           end
      else None
  | Raise _ => None
  end.

(** The chunks and the metadata one document contributes. *)
Definition doc_chunks (d : str * list str) : list str := snd d.
Definition doc_meta (proj : str) (d : str * list str) : list Meta :=
  map (fun _ => mkMeta proj (fst d)) (snd d).

(** The accumulators of the first loop of [ingest_urls] once the
    documents [ds] have been added. *)
Definition add_docs (proj : str) (acc : Fetched) (ds : list (str * list str))
  : Fetched :=
  mkFetched (f_chunks acc ++ flat_map doc_chunks ds)
            (f_meta acc ++ flat_map (doc_meta proj) ds)
            (f_count acc + List.length ds).

(** The documents that went through, in order. *)
Fixpoint successes {A : Type} (os : list (option A)) : list A :=
  match os with
  | [] => []
  | Some a :: os' => a :: successes os'
  | None :: os' => successes os'
  end.

End Specs.

(** ** An example world *)

(** The decoder on ASCII input: bytes above 127 are dropped. *)
Definition decode_ascii (b : bytes) : Res str :=
  Ok (map ascii_of_byte (filter (fun x => (Byte.to_nat x <? 128)%nat) b)).

Definition encode_ascii (s : str) : bytes := map byte_of_ascii s.

(** A world in which the embedding model has [dim] dimensions, every URL
    containing ["missing"] answers 404 and any other answers 200 with the
    body ["alpha beta gamma"], the vector store is always reachable, the
    uuid source counts, and no upload is a structured document. *)
Definition example_collab (dim : nat) : Collab :=
  {| remote := nat;
     post_embeddings := fun t o => (Ok (repeat 1%float dim), S o);
     requests_get := fun url _ o =>
       if contains url (lit "missing")
       then (Ok (404, []), S o)
       else (Ok (200, encode_ascii (lit "alpha beta gamma")), S o);
     uuid4 := fun o => (lit "point-" ++ show_int (Z.of_nat o), S o);
     qdrant_request := fun o => (Ok tt, S o);
     extract_text_from_pdf := fun _ => Raise (LibraryError "not a PDF");
     extract_text_from_docx := fun _ => Raise (LibraryError "not a DOCX");
     extract_text_from_pptx := fun _ => Raise (LibraryError "not a PPTX");
     extract_text_from_csv := fun _ => Raise (LibraryError "not a CSV");
     extract_text_from_xlsx := fun _ => Raise (LibraryError "not an XLSX");
     extract_text_from_xls := fun _ => Raise (LibraryError "not an XLS");
     bytes_decode := decode_ascii |}.

(** A text, a run of spaces and the empty text. *)
Definition example_texts : list str := [lit "hello"; lit "   "; []].

(** One metadata record per example text. *)
Definition example_meta : list Meta :=
  [mkMeta (lit "p") (lit "a.txt"); mkMeta (lit "p") (lit "a.txt");
   mkMeta (lit "p") (lit "b.txt")].

(** A plain-text upload of 1480 letters, and one of three spaces. *)
Definition upload_1480 : UploadFile :=
  mkUpload (lit "notes.txt") (Some (lit "text/plain")) (repeat "a"%byte 1480).
Definition upload_blank : UploadFile :=
  mkUpload (lit "blank.txt") (Some (lit "text/plain")) (encode_ascii (lit "   ")).

(** A request for three URLs, the second of which is missing. *)
Definition example_request : UrlIngest :=
  mkUrlIngest (lit "p")
              [lit "http://h/a.txt"; lit "http://h/missing.pdf";
               lit "http://h/dir/b.md?x=1"]
              None.

(** The process of the example world right after import. *)
Definition example_world (dim : nat) : @World (example_collab dim) :=
  @mkWorld (example_collab dim) RUNTIME_default [] [] 0%nat.

(** The same with embedding batches of two and upsert batches of one. *)
Definition example_world_small : @World (example_collab 4) :=
  @mkWorld (example_collab 4) (mkConfig 2 1 800 120) [] [] 0%nat.

(** ** Further specification-side definitions *)

(** The validation rules of the runtime configuration, all of them. *)
Definition config_valid (rt : Config) : Prop :=
  128 <= CHUNK_SIZE rt /\ 0 <= CHUNK_OVERLAP rt < CHUNK_SIZE rt /\
  0 < EMBED_BATCH rt /\ 0 < UPSERT_BATCH rt.

(** The vector size of the collection called [name], if the store has
    one. *)
Definition collection_dim (name : str) (cols : list (str * nat)) : option nat :=
  option_map snd (find (fun c => str_eqb name (fst c)) cols).

(** What an upload contributes: its file name and the chunks of its text,
    when the extraction returns. *)
Definition upload_doc {C : Collab} (rt : Config) (f : UploadFile)
  : option (str * list str) :=
  match extract_text (Some (filename f)) (Some (or_empty (content_type f)))
                     (content f) with
  | Ok t => Some (filename f, chunks t (CHUNK_SIZE rt) (CHUNK_OVERLAP rt))
  | Raise _ => None
  end.

(** A world like [example_world] whose store already has the collection,
    with vectors of size 768. *)
Definition example_world_existing (dim : nat) : @World (example_collab dim) :=
  @mkWorld (example_collab dim) RUNTIME_default [(COLL, 768%nat)] [] 0%nat.

(** A world whose embedding service answers every prompt but ["boom"],
    on which it fails. *)
Definition failing_collab : Collab :=
  {| remote := nat;
     post_embeddings := fun t o =>
       if str_eqb t (lit "boom")
       then (Raise (LibraryError "503"), S o)
       else (Ok (repeat 1%float 4), S o);
     requests_get := fun _ _ o => (Ok (200, []), S o);
     uuid4 := fun o => (lit "point-" ++ show_int (Z.of_nat o), S o);
     qdrant_request := fun o => (Ok tt, S o);
     extract_text_from_pdf := fun _ => Raise (LibraryError "not a PDF");
     extract_text_from_docx := fun _ => Raise (LibraryError "not a DOCX");
     extract_text_from_pptx := fun _ => Raise (LibraryError "not a PPTX");
     extract_text_from_csv := fun _ => Raise (LibraryError "not a CSV");
     extract_text_from_xlsx := fun _ => Raise (LibraryError "not an XLSX");
     extract_text_from_xls := fun _ => Raise (LibraryError "not an XLS");
     bytes_decode := decode_ascii |}.

Definition failing_world : @World failing_collab :=
  @mkWorld failing_collab RUNTIME_default [] [] 0%nat.

(** An empty plain-text upload. *)
Definition upload_empty : UploadFile :=
  mkUpload (lit "empty.txt") (Some (lit "text/plain")) [].

(** The example world started with [EMBED_BATCH=-1] in the environment. *)
Definition example_world_negative : @World (example_collab 4) :=
  @mkWorld (example_collab 4) (mkConfig (-1) 256 800 120) [] [] 0%nat.

(** ** The answer pipeline *)

(** A search hit: its similarity score and its payload dictionary (the
    payloads of the collection hold strings). *)
Record ScoredPoint : Type := mkHit {
  score : float;
  hit_payload : list (str * str)
}.

(** [d.get(key)] *)
Fixpoint dict_get (d : list (str * str)) (key : str) : option str :=
  match d with
  | [] => None
  | (k, v) :: d' => if str_eqb k key then Some v else dict_get d' key
  end.

(** The two collaborators only [chat] uses.
    - [qdrant_search query_vector limit]: [qdrant.search] on the
      collection, with payloads;
    - [post_generate prompt]: the POST to [/api/generate] followed by
      [raise_for_status] and [r.json().get("response")]. *)
Class ChatCollab {C : Collab} : Type := {
  qdrant_search : vec -> Z -> remote -> Res (list ScoredPoint) * remote;
  post_generate : str -> remote -> Res (option str) * remote
}.

(** [sep.join(parts)] *)
Fixpoint join (sep : str) (parts : list str) : str :=
  match parts with
  | [] => []
  | p :: rest =>
      match rest with
      | [] => p
      | _ :: _ => p ++ sep ++ join sep rest
      end
  end.

Definition newline : ascii := "010"%char.

(** The prompt template of [chat]. *)
Definition chat_prompt (ctx question : str) : str :=
  lit "You are a helpful assistant. Use the context to answer concisely. "
  ++ lit "If the answer is not in the context, say you don't know."
  ++ [newline; newline]
  ++ lit "Context:" ++ [newline] ++ ctx ++ [newline; newline]
  ++ lit "Question: " ++ question ++ [newline] ++ lit "Answer:".

Record Query : Type := mkQuery {
  question : str;
  top_k : Z;
  q_project : str
}.

Record Source : Type := mkSource {
  s_score : float;
  s_file : option str
}.

Record ChatResponse : Type := mkChatResponse {
  answer : str;
  sources : list Source
}.

(** [r.payload.get("text", "")] *)
Definition hit_text (h : ScoredPoint) : str :=
  or_empty (dict_get (hit_payload h) (lit "text")).

Definition chat {C : Collab} {K : ChatCollab} (q : Query) : M ChatResponse :=
  v <- embed (question q) ;;
  res <- call (qdrant_search v (top_k q)) ;;
  let ctx := join [newline; newline] (map hit_text res) in
  let prompt := chat_prompt ctx (question q) in
  ans <- call (post_generate prompt) ;;
  ret (mkChatResponse
         (or_empty ans)
         (map (fun hit => mkSource (score hit)
                                   (dict_get (hit_payload hit) (lit "file")))
              res)).

(** A store that returns two fixed hits and a generation service that
    answers with its prompt. *)
Definition example_chat (dim : nat) : @ChatCollab (example_collab dim) :=
  @Build_ChatCollab (example_collab dim)
    (fun _ _ (o : nat) =>
       (Ok [mkHit 1%float [(lit "text", lit "alpha"); (lit "file", lit "a.txt")];
            mkHit 0%float [(lit "file", lit "b.txt")]], S o))
    (fun prompt (o : nat) => (Ok (Some prompt), S o)).

(** The example world started with [UPSERT_BATCH=-1] in the environment. *)
Definition example_world_negative_upsert : @World (example_collab 4) :=
  @mkWorld (example_collab 4) (mkConfig 2 (-1) 800 120) [] [] 0%nat.

(** The search and generation services beside [failing_collab]. *)
Definition failing_chat : @ChatCollab failing_collab :=
  @Build_ChatCollab failing_collab
    (fun _ _ (o : nat) => (Ok [], S o))
    (fun _ (o : nat) => (Ok None, S o)).

(** The outside world once the embedding service has been asked for [t]:
    a blank text is not sent. *)
Definition after_embedding {C : Collab} (t : str) (o : remote) : remote :=
  if nonblank t then snd (post_embeddings t o) else o.

(** The outside world once [n] identifiers have been drawn. *)
Fixpoint after_ids {C : Collab} (n : nat) (o : remote) : remote :=
  match n with
  | O => o
  | S n' => after_ids n' (snd (uuid4 o))
  end.

(** The outside world once a batch has been embedded, text after text,
    and one identifier drawn per text, with no request to the store. *)
Definition after_batch {C : Collab} (b : list str) (o : remote) : remote :=
  after_ids (List.length b) (fold_left (fun o t => after_embedding t o) b o).

(** The same for a sequence of batches, one after the other. *)
Definition after_batches {C : Collab} (batches : list (list str)) (o : remote)
  : remote :=
  fold_left (fun o b => after_batch b o) batches o.

(** * Properties *)

(** ** Slices *)

Lemma len_nonneg {A : Type} (l : list A) : 0 <= len l.
Proof. unfold len; lia. Qed.

Lemma len_app {A : Type} (l1 l2 : list A) : len (l1 ++ l2) = len l1 + len l2.
Proof. unfold len; rewrite length_app; lia. Qed.

(** With non-negative bounds a slice is the plain sub-list. *)
Lemma py_slice_nonneg {A : Type} (s : list A) (i n : Z) :
  0 <= i -> 0 <= n ->
  py_slice s i (i + n) = firstn (Z.to_nat n) (skipn (Z.to_nat i) s).
Proof.
  intros Hi Hn. unfold py_slice, slice_bound.
  pose proof (len_nonneg s) as Hl.
  destruct (i <? 0) eqn:E1; [apply Z.ltb_lt in E1; lia|].
  destruct (i + n <? 0) eqn:E2; [apply Z.ltb_lt in E2; lia|].
  destruct (Z_le_gt_dec i (len s)) as [Hle|Hgt].
  - rewrite (Z.min_l i) by lia.
    destruct (Z_le_gt_dec (i + n) (len s)) as [Hle2|Hgt2].
    + rewrite Z.min_l by lia. f_equal. lia.
    + rewrite Z.min_r by lia.
      rewrite !firstn_all2; try reflexivity;
        rewrite length_skipn; unfold len in *; lia.
  - rewrite !Z.min_r by lia.
    rewrite !skipn_all2 by (unfold len in *; lia).
    now rewrite !firstn_nil.
Qed.

Lemma py_slice_length {A : Type} (s : list A) (i n : Z) :
  0 <= i -> 0 <= n ->
  len (py_slice s i (i + n)) = Z.min n (Z.max 0 (len s - i)).
Proof.
  intros Hi Hn. rewrite py_slice_nonneg by assumption.
  unfold len. rewrite length_firstn, length_skipn. lia.
Qed.

(** ** The chunker *)

Lemma ceil_div_step (a b : Z) :
  0 < b -> ceil_div a b = 1 + ceil_div (a - b) b.
Proof.
  intros Hb. unfold ceil_div.
  replace (a + b - 1) with ((a - b + b - 1) + 1 * b) by lia.
  rewrite Z.div_add by lia. lia.
Qed.

Lemma ceil_div_nonpos (a b : Z) : 0 < b -> a <= 0 -> ceil_div a b <= 0.
Proof.
  intros Hb Ha. unfold ceil_div.
  assert ((a + b - 1) / b < 1); [|lia].
  apply Z.div_lt_upper_bound; lia.
Qed.

Lemma ceil_div_bounds (a b : Z) :
  0 < b -> 0 <= a ->
  a <= ceil_div a b * b /\ (ceil_div a b - 1) * b < a /\ 0 <= ceil_div a b <= a.
Proof.
  intros Hb Ha. unfold ceil_div.
  pose proof (Z.div_mod (a + b - 1) b ltac:(lia)) as Hdm.
  pose proof (Z.mod_pos_bound (a + b - 1) b Hb) as Hm.
  assert (0 <= (a + b - 1) / b) by (apply Z.div_pos; lia).
  nia.
Qed.

(** The loop, given enough fuel, appends the windows at offsets
    [i], [i + step], ... below [len s]. *)
Lemma chunks_loop_spec (fuel : nat) :
  forall (s : str) (size step : Z) (out : list str) (i : Z),
    1 <= step -> 0 <= i ->
    Z.max 0 (len s - i) < Z.of_nat fuel ->
    chunks_loop fuel s size step out i =
    Some (out ++ map (window s size step i)
                     (seq 0 (Z.to_nat (ceil_div (len s - i) step)))).
Proof.
  induction fuel as [|fuel IH]; intros s size step out i Hstep Hi Hfuel.
  - lia.
  - cbn [chunks_loop]. destruct (i <? len s) eqn:E.
    + apply Z.ltb_lt in E.
      rewrite IH by lia.
      rewrite (ceil_div_step (len s - i) step) by lia.
      replace (len s - (i + step)) with (len s - i - step) by lia.
      pose proof (ceil_div_bounds (len s - i - 1) step ltac:(lia) ltac:(lia)) as Hb.
      assert (Hc : 0 <= ceil_div (len s - i - step) step).
      { unfold ceil_div in *.
        replace (len s - i - step + step - 1) with (len s - i - 1) by lia.
        apply Z.div_pos; lia. }
      rewrite Z2Nat.inj_add by lia.
      change (Z.to_nat 1) with 1%nat. cbn [Nat.add seq map].
      rewrite <- app_assoc. cbn [app]. do 3 f_equal.
      * unfold window. f_equal; lia.
      * rewrite <- seq_shift, map_map. apply map_ext.
        intros k. unfold window. f_equal; lia.
    + apply Z.ltb_ge in E.
      pose proof (ceil_div_nonpos (len s - i) step ltac:(lia) ltac:(lia)).
      replace (Z.to_nat (ceil_div (len s - i) step)) with 0%nat by lia.
      cbn. now rewrite app_nil_r.
Qed.

(** Closed form of the chunker for every input. *)
Lemma chunks_fuel_closed (s : str) (size overlap : Z) (fuel : nat) :
  (List.length s < fuel)%nat ->
  chunks_fuel fuel s size overlap =
  Some (map (window s size (Z.max 1 (size - overlap)) 0)
            (seq 0 (Z.to_nat (ceil_div (len s) (Z.max 1 (size - overlap)))))).
Proof.
  intros Hfuel. unfold chunks_fuel.
  pose proof (Z.le_max_l 1 (size - overlap)) as Hstep.
  destruct s as [|c s'] eqn:Es.
  - cbn [truthy].
    pose proof (ceil_div_nonpos (len (@nil ascii)) (Z.max 1 (size - overlap))
                                ltac:(lia) ltac:(reflexivity)).
    replace (Z.to_nat _) with 0%nat by lia. reflexivity.
  - cbn [truthy]. rewrite <- Es in *.
    rewrite chunks_loop_spec; [|lia|lia|unfold len; lia].
    cbn [app]. now rewrite Z.sub_0_r.
Qed.

Lemma chunks_closed (s : str) (size overlap : Z) :
  chunks s size overlap =
  map (window s size (Z.max 1 (size - overlap)) 0)
      (seq 0 (Z.to_nat (ceil_div (len s) (Z.max 1 (size - overlap))))).
Proof.
  unfold chunks. now rewrite chunks_fuel_closed by lia.
Qed.

Lemma chunks_length (s : str) (size overlap : Z) :
  len (chunks s size overlap) = ceil_div (len s) (Z.max 1 (size - overlap)).
Proof.
  rewrite chunks_closed. unfold len at 1. rewrite length_map, length_seq.
  pose proof (ceil_div_bounds (len s) (Z.max 1 (size - overlap))
                              ltac:(lia) (len_nonneg s)).
  lia.
Qed.

(** C10: the chunker terminates on every input.  For all integers [size]
    and [overlap], valid or not, the advance step [max(1, size - overlap)]
    is at least 1, so each iteration moves the offset strictly forward;
    any fuel above the text length lets the loop reach its exit, always with
    the same list, which is what [chunks] returns and which has at most
    one chunk per character. *)
Theorem chunks_terminates (s : str) (size overlap : Z) :
  let step := Z.max 1 (size - overlap) in
  1 <= step /\
  (forall (fuel : nat) (out : list str) (i : Z),
      i < len s ->
      i < i + step /\
      chunks_loop (S fuel) s size step out i =
      chunks_loop fuel s size step (out ++ [py_slice s i (i + size)]) (i + step)) /\
  exists out : list str,
    (forall fuel : nat,
        (List.length s < fuel)%nat -> chunks_fuel fuel s size overlap = Some out) /\
    chunks s size overlap = out /\
    (List.length out <= List.length s)%nat.
Proof.
  intros step. split; [subst step; lia|]. split.
  - intros fuel out i Hi. split; [subst step; lia|].
    cbn [chunks_loop]. apply Z.ltb_lt in Hi. now rewrite Hi.
  - eexists. split; [|split].
    + intros fuel Hfuel. apply chunks_fuel_closed, Hfuel.
    + apply chunks_closed.
    + rewrite length_map, length_seq.
      assert (Hs : 0 < step) by (subst step; lia).
      pose proof (ceil_div_bounds (len s) step Hs (len_nonneg s)).
      fold step. unfold len in *. lia.
Qed.

Lemma chunks_nth (s : str) (size overlap : Z) (k : nat) :
  (k < Z.to_nat (ceil_div (len s) (Z.max 1 (size - overlap))))%nat ->
  nth_error (chunks s size overlap) k =
  Some (window s size (Z.max 1 (size - overlap)) 0 k).
Proof.
  intros Hk. rewrite chunks_closed, nth_error_map, nth_error_seq.
  apply Nat.ltb_lt in Hk. now rewrite Hk.
Qed.

(** C1: for valid parameters ([size >= 128], [0 <= overlap < size]) the
    chunker emits the slices [s[i:i+size]] at the offsets
    [0, step, 2*step, ...] with [step = size - overlap], for exactly the
    offsets below [len(s)]; the number of chunks is
    [ceil(len(s) / (size - overlap))]; every position of the text lies in
    the range of some chunk, which holds the text's character there; and
    the empty text gives no chunk. *)
Theorem chunks_valid_params (s : str) (size overlap : Z) :
  128 <= size -> 0 <= overlap < size ->
  let step := size - overlap in
  let n := ceil_div (len s) step in
  chunks s size overlap =
    map (fun k : nat => py_slice s (Z.of_nat k * step) (Z.of_nat k * step + size))
        (seq 0 (Z.to_nat n)) /\
  (forall k : nat, (k < Z.to_nat n)%nat -> Z.of_nat k * step < len s) /\
  len s <= n * step /\
  len (chunks s size overlap) = n /\
  (forall j : nat,
      (j < List.length s)%nat ->
      exists (k : nat) (c : str),
        nth_error (chunks s size overlap) k = Some c /\
        Z.of_nat k * step <= Z.of_nat j < Z.of_nat k * step + len c /\
        nth_error c (j - k * Z.to_nat step) = nth_error s j) /\
  chunks [] size overlap = [].
Proof.
  intros Hsize Hov step n.
  assert (Hmax : Z.max 1 (size - overlap) = step) by (subst step; lia).
  assert (Hstep : 0 < step) by (subst step; lia).
  pose proof (ceil_div_bounds (len s) step Hstep (len_nonneg s)) as (Hup & Hlow & Hn).
  fold n in Hup, Hlow, Hn.
  split; [|split; [|split; [|split; [|split]]]].
  - rewrite chunks_closed, Hmax. fold n. apply map_ext.
    intros k. unfold window. f_equal; lia.
  - intros k Hk. nia.
  - exact Hup.
  - rewrite chunks_length, Hmax. reflexivity.
  - intros j Hj.
    set (k := (j / Z.to_nat step)%nat).
    assert (Hdm : (j = Z.to_nat step * k + j mod Z.to_nat step)%nat)
      by (apply Nat.div_mod_eq).
    assert (Hmod : (j mod Z.to_nat step < Z.to_nat step)%nat)
      by (apply Nat.mod_upper_bound; lia).
    assert (Hkj : Z.of_nat k * step <= Z.of_nat j < Z.of_nat k * step + step) by nia.
    assert (Hkn : (k < Z.to_nat n)%nat) by (unfold len in *; nia).
    exists k, (window s size step 0 k).
    split; [rewrite <- Hmax at 1; apply chunks_nth; rewrite Hmax; exact Hkn|].
    unfold window. cbn [Z.add].
    pose proof (py_slice_length s (Z.of_nat k * step) size ltac:(lia) ltac:(lia)) as Hlen.
    split; [unfold len in *; lia|].
    rewrite py_slice_nonneg by lia.
    rewrite nth_error_firstn, nth_error_skipn.
    replace (j - k * Z.to_nat step <? Z.to_nat size)%nat with true
      by (symmetry; apply Nat.ltb_lt; nia).
    f_equal. nia.
  - reflexivity.
Qed.

(** An instance of C1: a text of 1000 characters, windows of 128 with
    an overlap of 28. *)
Lemma chunks_valid_params_witness :
  128 <= 128 /\ 0 <= 28 < 128 /\
  len (chunks (repeat "a"%char 1000) 128 28) = ceil_div 1000 100.
Proof.
  split; [lia|]. split; [lia|].
  pose proof (chunks_valid_params (repeat "a"%char 1000) 128 28
                                  ltac:(lia) ltac:(lia)) as H.
  cbv zeta in H. destruct H as (_ & _ & _ & H & _).
  rewrite H. unfold len. rewrite repeat_length. reflexivity.
Defined.

(** ** Runtime configuration *)

(** What one patch request leaves in each field of [RUNTIME]. *)
Lemma set_config_fields (p : ConfigPatch) (rt : Config) :
  let rt' := snd (set_config p rt) in
  EMBED_BATCH rt' =
    match p_EMBED_BATCH p with
    | Some v => if 0 <? v then v else EMBED_BATCH rt
    | None => EMBED_BATCH rt
    end /\
  UPSERT_BATCH rt' =
    match p_UPSERT_BATCH p with
    | Some v => if 0 <? v then v else UPSERT_BATCH rt
    | None => UPSERT_BATCH rt
    end /\
  CHUNK_SIZE rt' =
    match p_CHUNK_SIZE p with
    | Some v => if 128 <=? v then v else CHUNK_SIZE rt
    | None => CHUNK_SIZE rt
    end /\
  CHUNK_OVERLAP rt' =
    match p_CHUNK_OVERLAP p with
    | Some v => if (0 <=? v) && (v <? CHUNK_SIZE rt') then v else CHUNK_OVERLAP rt
    | None => CHUNK_OVERLAP rt
    end.
Proof.
  destruct p as [eb ub cs co], rt as [a b c d].
  unfold set_config, guarded_assign. cbn [snd p_EMBED_BATCH p_UPSERT_BATCH p_CHUNK_SIZE p_CHUNK_OVERLAP].
  destruct eb as [eb|]; [destruct (0 <? eb)|];
    (destruct ub as [ub|]; [destruct (0 <? ub)|]);
    (destruct cs as [cs|]; [destruct (128 <=? cs)|]);
    (destruct co as [co|]; cbn;
     [destruct (0 <=? co); cbn;
      repeat match goal with
             | |- context [co <? ?x] => destruct (co <? x) eqn:?; cbn in *
             end|]);
    repeat split; congruence.
Qed.

(** C7: a patch request is never rejected, and an invalid field is dropped
    silently.  A [CHUNK_SIZE] below 128 leaves [CHUNK_SIZE] unchanged; a
    [CHUNK_OVERLAP] that is negative or not below the chunk size in force
    once the request's own [CHUNK_SIZE] has been handled leaves
    [CHUNK_OVERLAP] unchanged; a non-positive batch size leaves that batch
    size unchanged; an absent field changes nothing; every valid field is
    stored; the response carries [ok = True] and the merged configuration,
    which is what a following [get_config] reads. *)
Theorem set_config_silent_per_field (p : ConfigPatch) (rt : Config) :
  let resp := fst (set_config p rt) in
  let rt' := snd (set_config p rt) in
  (ok resp = true /\ merged resp = rt' /\ get_config rt' = merged resp) /\
  (forall v, p_CHUNK_SIZE p = Some v ->
             (v < 128 -> CHUNK_SIZE rt' = CHUNK_SIZE rt) /\
             (128 <= v -> CHUNK_SIZE (get_config rt') = v)) /\
  (forall v, p_CHUNK_OVERLAP p = Some v ->
             (v < 0 \/ CHUNK_SIZE rt' <= v -> CHUNK_OVERLAP rt' = CHUNK_OVERLAP rt) /\
             (0 <= v < CHUNK_SIZE rt' -> CHUNK_OVERLAP (get_config rt') = v)) /\
  (forall v, p_EMBED_BATCH p = Some v ->
             (v <= 0 -> EMBED_BATCH rt' = EMBED_BATCH rt) /\
             (0 < v -> EMBED_BATCH (get_config rt') = v)) /\
  (forall v, p_UPSERT_BATCH p = Some v ->
             (v <= 0 -> UPSERT_BATCH rt' = UPSERT_BATCH rt) /\
             (0 < v -> UPSERT_BATCH (get_config rt') = v)) /\
  (p_CHUNK_SIZE p = None -> CHUNK_SIZE rt' = CHUNK_SIZE rt) /\
  (p_CHUNK_OVERLAP p = None -> CHUNK_OVERLAP rt' = CHUNK_OVERLAP rt) /\
  (p_EMBED_BATCH p = None -> EMBED_BATCH rt' = EMBED_BATCH rt) /\
  (p_UPSERT_BATCH p = None -> UPSERT_BATCH rt' = UPSERT_BATCH rt).
Proof.
  intros resp rt'. unfold get_config.
  destruct (set_config_fields p rt) as (Heb & Hub & Hcs & Hco).
  fold rt' in Heb, Hub, Hcs, Hco.
  split; [repeat split|].
  repeat split.
  - intros Hv. rewrite Hcs, H. destruct (128 <=? v) eqn:E; [apply Z.leb_le in E; lia|reflexivity].
  - intros Hv. rewrite Hcs, H. apply Z.leb_le in Hv. now rewrite Hv.
  - intros Hv. rewrite Hco, H.
    destruct (0 <=? v) eqn:E1; [|reflexivity].
    destruct (v <? CHUNK_SIZE rt') eqn:E2; [|reflexivity].
    apply Z.leb_le in E1. apply Z.ltb_lt in E2. lia.
  - intros [Hv1 Hv2]. rewrite Hco, H.
    apply Z.leb_le in Hv1. apply Z.ltb_lt in Hv2. now rewrite Hv1, Hv2.
  - intros Hv. rewrite Heb, H. destruct (0 <? v) eqn:E; [apply Z.ltb_lt in E; lia|reflexivity].
  - intros Hv. rewrite Heb, H. apply Z.ltb_lt in Hv. now rewrite Hv.
  - intros Hv. rewrite Hub, H. destruct (0 <? v) eqn:E; [apply Z.ltb_lt in E; lia|reflexivity].
  - intros Hv. rewrite Hub, H. apply Z.ltb_lt in Hv. now rewrite Hv.
  - intros H. now rewrite Hcs, H.
  - intros H. now rewrite Hco, H.
  - intros H. now rewrite Heb, H.
  - intros H. now rewrite Hub, H.
Qed.

(** An instance of C7: one request whose [CHUNK_SIZE] (100) is too small
    and whose [CHUNK_OVERLAP] (64) and [EMBED_BATCH] (8) are valid. *)
Lemma set_config_silent_per_field_witness :
  let rt' := snd (set_config patch_mixed RUNTIME_default) in
  ok (fst (set_config patch_mixed RUNTIME_default)) = true /\
  CHUNK_SIZE rt' = 800 /\ CHUNK_OVERLAP rt' = 64 /\ EMBED_BATCH rt' = 8.
Proof.
  destruct (set_config_silent_per_field patch_mixed RUNTIME_default)
    as ((Hok & _) & Hcs & Hco & Heb & _).
  split; [exact Hok|]. split; [|split].
  - rewrite (proj1 (Hcs 100 eq_refl)) by lia. reflexivity.
  - apply (proj2 (Hco 64 eq_refl)). vm_compute. split; [discriminate|reflexivity].
  - apply (proj2 (Heb 8 eq_refl)). lia.
Defined.

Lemma set_config_lower_bounds (p : ConfigPatch) (rt : Config) :
  config_lower_bounds rt -> config_lower_bounds (snd (set_config p rt)).
Proof.
  unfold config_lower_bounds. intros (Hcs & Hco & Heb & Hub).
  destruct (set_config_fields p rt) as (Eeb & Eub & Ecs & Eco).
  cbv zeta in *. rewrite Eeb, Eub, Ecs, Eco at 1.
  repeat split.
  - destruct (p_CHUNK_SIZE p) as [v|]; [|lia].
    destruct (128 <=? v) eqn:E; [apply Z.leb_le in E|]; lia.
  - destruct (p_CHUNK_OVERLAP p) as [v|]; [|lia].
    destruct (0 <=? v) eqn:E; cbn [andb]; [apply Z.leb_le in E|lia].
    destruct (v <? _); lia.
  - destruct (p_EMBED_BATCH p) as [v|]; [|lia].
    destruct (0 <? v) eqn:E; [apply Z.ltb_lt in E|]; lia.
  - destruct (p_UPSERT_BATCH p) as [v|]; [|lia].
    destruct (0 <? v) eqn:E; [apply Z.ltb_lt in E|]; lia.
Qed.

Lemma apply_patches_lower_bounds (ps : list ConfigPatch) (rt : Config) :
  config_lower_bounds rt -> config_lower_bounds (apply_patches ps rt).
Proof.
  revert rt. induction ps as [|p ps IH]; intros rt H; [exact H|].
  cbn. apply IH, set_config_lower_bounds, H.
Qed.

(** C6, at the input where it fails: from the default configuration, a
    request raising [CHUNK_OVERLAP] to 500 followed by a request lowering
    [CHUNK_SIZE] to 128 are both accepted, and leave the overlap above the
    chunk size. *)
Theorem set_config_overlap_not_rechecked :
  let rt := apply_patches [patch_overlap_500; patch_size_128] RUNTIME_default in
  CHUNK_SIZE rt = 128 /\ CHUNK_OVERLAP rt = 500 /\
  ~ (128 <= CHUNK_SIZE rt /\ 0 <= CHUNK_OVERLAP rt < CHUNK_SIZE rt /\
     0 < EMBED_BATCH rt /\ 0 < UPSERT_BATCH rt).
Proof.
  cbv zeta. split; [reflexivity|]. split; [reflexivity|].
  vm_compute. intros (_ & (_ & H) & _). discriminate H.
Qed.

(** ** The text extractor *)

(** C8: [extract_text] does not raise.  Whatever a structured extractor
    raises is swallowed and the result is the decoding of the raw bytes,
    or the empty string when that decoding raises too; a document no
    branch recognises is decoded directly; a successful extraction is
    passed on.  As the decoder with [errors="ignore"] returns on every byte
    string, [extract_text] returns on every input. *)
Theorem extract_text_never_raises {C : Collab}
        (filename content_type : option str) (b : bytes) :
  let name := lower (or_empty filename) in
  let ct := lower (or_empty content_type) in
  (forall e : exn,
      extract_dispatch name ct b = Some (Raise e) ->
      extract_text filename content_type b =
      Ok (match bytes_decode b with Ok s => s | Raise _ => [] end)) /\
  (extract_dispatch name ct b = None ->
   extract_text filename content_type b = bytes_decode b) /\
  (forall s : str,
      extract_dispatch name ct b = Some (Ok s) ->
      extract_text filename content_type b = Ok s) /\
  (is_ok (bytes_decode b) = true ->
   exists s : str, extract_text filename content_type b = Ok s).
Proof.
  intros name ct. unfold extract_text. fold name ct.
  split; [|split; [|split]].
  - intros e He. rewrite He. now destruct (bytes_decode b).
  - intros He. now rewrite He.
  - intros s He. now rewrite He.
  - intros Hd. destruct (extract_dispatch name ct b) as [[s|e]|].
    + now exists s.
    + destruct (bytes_decode b) as [s|e']; eauto.
    + destruct (bytes_decode b) as [s|e']; [eauto|discriminate].
Qed.

(** An instance of C8: an upload named [REPORT.PDF] that the PDF reader
    rejects comes back as its decoded bytes. *)
Lemma extract_text_never_raises_witness :
  @extract_dispatch (example_collab 4) (lit "report.pdf") [] (encode_ascii (lit "xyz"))
    = Some (Raise (LibraryError "not a PDF")) /\
  is_ok (@bytes_decode (example_collab 4) (encode_ascii (lit "xyz"))) = true /\
  @extract_text (example_collab 4) (Some (lit "REPORT.PDF")) None
                (encode_ascii (lit "xyz")) = Ok (lit "xyz").
Proof.
  split; [reflexivity|]. split; [reflexivity|].
  destruct (@extract_text_never_raises (example_collab 4)
              (Some (lit "REPORT.PDF")) None (encode_ascii (lit "xyz")))
    as (H & _ & _ & _).
  rewrite (H (LibraryError "not a PDF")) by reflexivity. reflexivity.
Defined.

(** ** The monad *)

Section MonadFacts.
Context {C : Collab}.

Lemma bind_run {A B : Type} (c : M A) (k : A -> M B) (w : World) :
  bind c k w =
  match c w with
  | (Ok a, w') => k a w'
  | (Raise e, w') => (Raise e, w')
  end.
Proof. reflexivity. Qed.

Lemma same_process_refl (w : World) : same_process w w.
Proof. repeat split. Qed.

Lemma same_process_trans (w1 w2 w3 : World) :
  same_process w1 w2 -> same_process w2 w3 -> same_process w1 w3.
Proof.
  unfold same_process. intros (A1 & A2 & A3) (B1 & B2 & B3).
  repeat split; congruence.
Qed.

Lemma call_same_process {A : Type} (f : remote -> Res A * remote)
      (w w' : World) (r : Res A) :
  call f w = (r, w') ->
  same_process w w' /\ f (outside w) = (r, outside w').
Proof.
  unfold call. destruct (f (outside w)) as [r0 o]. intros E.
  injection E as <- <-. split; [repeat split|reflexivity].
Qed.

Lemma call_total_same_process {A : Type} (f : remote -> A * remote)
      (w w' : World) (r : Res A) :
  call_total f w = (r, w') ->
  same_process w w' /\ exists a, r = Ok a.
Proof.
  unfold call_total. destruct (f (outside w)) as [a o]. intros E.
  injection E as <- <-. split; [repeat split|eauto].
Qed.

End MonadFacts.

(** Case analysis on the first computation of a [bind] in hypothesis [H]:
    either it raised, and so did the whole, or it returned and the
    continuation ran. *)
Ltac step_bind H r w E :=
  rewrite bind_run in H;
  match type of H with
  | context [match ?c ?w0 with _ => _ end] =>
      destruct (c w0) as [r w] eqn:E; destruct r as [r|r]
  end.

(** ** The embedding client *)

Lemma lstrip_nil_iff (s : str) : lstrip s = [] <-> forallb isspace s = true.
Proof.
  induction s as [|c s IH]; cbn; [tauto|].
  destruct (isspace c); cbn; [exact IH|]. split; discriminate.
Qed.

Lemma lstrip_head (s : str) (c : ascii) (r : str) :
  lstrip s = c :: r -> isspace c = false.
Proof.
  induction s as [|d s IH]; cbn; [discriminate|].
  destruct (isspace d) eqn:E; [exact IH|]. intros H. now injection H as <- _.
Qed.

Lemma forallb_rev {A : Type} (f : A -> bool) (l : list A) :
  forallb f (rev l) = forallb f l.
Proof.
  induction l as [|a l IH]; [reflexivity|].
  cbn. rewrite forallb_app, IH. cbn. rewrite andb_true_r. apply andb_comm.
Qed.

(** A text is blank for [embed_batch] exactly when it has no character
    other than white space. *)
Lemma nonblank_false_iff (t : str) :
  nonblank t = false <-> forallb isspace t = true.
Proof.
  unfold nonblank, strip, rstrip.
  destruct t as [|c t]; [cbn; tauto|].
  cbn [truthy andb].
  destruct (lstrip (c :: t)) as [|d r] eqn:El.
  - split; [intros _|reflexivity]. now apply (proj1 (lstrip_nil_iff (c :: t))).
  - pose proof (lstrip_head _ _ _ El) as Hd.
    assert (Hn : forallb isspace (c :: t) = false).
    { destruct (forallb isspace (c :: t)) eqn:E; [|reflexivity].
      apply lstrip_nil_iff in E. congruence. }
    rewrite Hn.
    assert (Hr : lstrip (rev (d :: r)) <> []).
    { intros H. apply lstrip_nil_iff in H. rewrite forallb_rev in H.
      cbn in H. rewrite Hd in H. discriminate. }
    destruct (lstrip (rev (d :: r))) as [|x y] eqn:E2; [congruence|].
    cbn [rev]. destruct (rev y ++ [x]) eqn:E3.
    + destruct (rev y); discriminate.
    + cbn. split; discriminate.
Qed.

Section EmbedFacts.
Context {C : Collab}.

Lemma embed_batch_loop_each (xs : list str) :
  forall (acc : list vec) (w : World),
    embed_batch_loop xs acc w =
    match embed_each xs w with
    | (Ok vs, w') => (Ok (acc ++ vs), w')
    | (Raise e, w') => (Raise e, w')
    end.
Proof.
  induction xs as [|t rest IH]; intros acc w.
  - cbn. unfold ret. now rewrite app_nil_r.
  - cbn [embed_batch_loop embed_each]. destruct (nonblank t).
    + rewrite !bind_run. destruct (call (post_embeddings t) w) as [[v|e] w1];
        [|reflexivity].
      rewrite IH, bind_run. destruct (embed_each rest w1) as [[vs|e] w2];
        [|reflexivity].
      unfold ret. now rewrite <- app_assoc.
    + rewrite IH, !bind_run. unfold ret at 1.
      rewrite bind_run. destruct (embed_each rest w) as [[vs|e] w2];
        [|reflexivity].
      unfold ret. now rewrite <- app_assoc.
Qed.

Lemma embed_batch_each (xs : list str) (w : World) :
  embed_batch xs w = embed_each xs w.
Proof.
  unfold embed_batch. destruct xs as [|t rest]; [reflexivity|].
  cbn [truthy]. rewrite embed_batch_loop_each.
  now destruct (embed_each (t :: rest) w) as [[vs|e] w'].
Qed.

Lemma embed_each_app (xs ys : list str) :
  forall w : World,
    embed_each (xs ++ ys) w =
    match embed_each xs w with
    | (Ok v1, w1) =>
        match embed_each ys w1 with
        | (Ok v2, w2) => (Ok (v1 ++ v2), w2)
        | (Raise e, w2) => (Raise e, w2)
        end
    | (Raise e, w1) => (Raise e, w1)
    end.
Proof.
  induction xs as [|t rest IH]; intros w.
  - cbn. unfold ret. now destruct (embed_each ys w) as [[v2|e] w2].
  - cbn [app embed_each]. rewrite !bind_run.
    destruct ((if nonblank t then call (post_embeddings t) else ret zero_vector) w)
      as [[v|e] w1]; [|reflexivity].
    rewrite !bind_run, IH.
    destruct (embed_each rest w1) as [[v1|e] w2]; [|reflexivity].
    unfold ret.
    destruct (embed_each ys w2) as [[v2|e] w3]; reflexivity.
Qed.

(** One step of the embedding loop. *)
Lemma embed_one_spec (t : str) (w w' : World) (r : Res vec) :
  (if nonblank t then call (post_embeddings t) else ret zero_vector) w = (r, w') ->
  same_process w w' /\
  forall v : vec,
    r = Ok v ->
    if nonblank t then fst (post_embeddings t (outside w)) = Ok v
    else v = zero_vector.
Proof.
  destruct (nonblank t).
  - intros E. apply call_same_process in E as (Hs & E).
    split; [exact Hs|]. intros v ->. now rewrite E.
  - unfold ret. intros E. injection E as <- <-.
    split; [apply same_process_refl|]. intros v E. now injection E.
Qed.

Lemma embed_each_spec (xs : list str) :
  forall (w w' : World) (r : Res (list vec)),
    embed_each xs w = (r, w') ->
    same_process w w' /\
    forall vs : list vec,
      r = Ok vs ->
      List.length vs = List.length xs /\ Forall2 embedding_of xs vs.
Proof.
  induction xs as [|t rest IH]; intros w w' r E.
  - cbn in E. unfold ret in E. injection E as <- <-.
    split; [apply same_process_refl|]. intros vs E. injection E as <-.
    split; [reflexivity|constructor].
  - cbn [embed_each] in E. step_bind E v w1 E1.
    + apply embed_one_spec in E1 as (Hs1 & Hv).
      step_bind E vs w2 E2.
      * apply IH in E2 as (Hs2 & Hvs). unfold ret in E. injection E as <- <-.
        split; [eapply same_process_trans; eassumption|].
        intros vs' E. injection E as <-.
        destruct (Hvs vs eq_refl) as (Hl & Hf).
        split; [cbn; now rewrite Hl|]. constructor; [|exact Hf].
        specialize (Hv v eq_refl). unfold embedding_of.
        destruct (nonblank t); [eauto|exact Hv].
      * apply IH in E2 as (Hs2 & _). injection E as <- <-.
        split; [eapply same_process_trans; eassumption|discriminate].
    + apply embed_one_spec in E1 as (Hs1 & _). injection E as <- <-.
      split; [exact Hs1|discriminate].
Qed.

Lemma embed_batch_spec (xs : list str) (w w' : World) (r : Res (list vec)) :
  embed_batch xs w = (r, w') ->
  same_process w w' /\
  forall vs : list vec,
    r = Ok vs ->
    List.length vs = List.length xs /\ Forall2 embedding_of xs vs.
Proof. rewrite embed_batch_each. apply embed_each_spec. Qed.

(** The embedding loop returns when every call to the service does. *)
Lemma embed_each_returns (xs : list str) :
  (forall (t : str) (o : remote),
      In t xs -> nonblank t = true -> is_ok (fst (post_embeddings t o)) = true) ->
  forall w : World, exists (vs : list vec) (w' : World),
      embed_each xs w = (Ok vs, w').
Proof.
  induction xs as [|t rest IH]; intros Hok w.
  - cbn. unfold ret. eauto.
  - cbn [embed_each]. rewrite bind_run.
    assert (H1 : exists v w1,
               (if nonblank t then call (post_embeddings t) else ret zero_vector) w
               = (Ok v, w1)).
    { destruct (nonblank t) eqn:En; [|unfold ret; eauto].
      specialize (Hok t (outside w) (or_introl eq_refl) En).
      unfold call. destruct (post_embeddings t (outside w)) as [[v|e] o];
        [eauto|discriminate]. }
    destruct H1 as (v & w1 & ->).
    destruct (IH (fun t' o H => Hok t' o (or_intror H)) w1) as (vs & w2 & E2).
    rewrite bind_run, E2. unfold ret. eauto.
Qed.

End EmbedFacts.

(** X25: [embed_batch] keeps length and order.  Whenever it returns, the
    result has one vector per input text; the vector at the position of a
    blank or whitespace-only text is the literal [[0.0] * 768], whatever
    the length of the vectors the service returns, and the vector at the
    position of any other text is what
    the embedding service answered to that text, asked after the texts
    before it.  A text is blank exactly when all its characters are white
    space.  The call returns whenever the service answers every non-blank
    text. *)
Theorem embed_batch_aligned {C : Collab} (text_list : list str) (w : World) :
  (forall (vs : list vec) (w' : World),
      embed_batch text_list w = (Ok vs, w') ->
      List.length vs = List.length text_list /\
      forall (i : nat) (t : str),
        nth_error text_list i = Some t ->
        exists v : vec,
          nth_error vs i = Some v /\
          if nonblank t
          then exists (vs_i : list vec) (w_i : World),
              embed_batch (firstn i text_list) w = (Ok vs_i, w_i) /\
              fst (post_embeddings t (outside w_i)) = Ok v
          else v = repeat 0%float 768) /\
  (forall t : str, nonblank t = false <-> forallb isspace t = true) /\
  ((forall (t : str) (o : remote),
       In t text_list -> nonblank t = true ->
       is_ok (fst (post_embeddings t o)) = true) ->
   exists (vs : list vec) (w' : World), embed_batch text_list w = (Ok vs, w')).
Proof.
  split; [|split; [exact nonblank_false_iff|]].
  - intros vs w' E. rewrite embed_batch_each in E.
    split; [apply embed_each_spec in E as (_ & H); now apply H|].
    intros i t Hi.
    apply nth_error_split in Hi as (l1 & l2 & -> & Hl).
    rewrite embed_each_app in E.
    destruct (embed_each l1 w) as [[v1|e] w1] eqn:E1; [|discriminate].
    cbn [embed_each] in E. rewrite bind_run in E.
    destruct ((if nonblank t then call (post_embeddings t) else ret zero_vector) w1)
      as [[v|e] w2] eqn:E2; [|discriminate].
    rewrite bind_run in E.
    destruct (embed_each l2 w2) as [[v2|e] w3]; [|discriminate].
    unfold ret in E. injection E as <- <-.
    pose proof (embed_each_spec _ _ _ _ E1) as (_ & H1).
    destruct (H1 v1 eq_refl) as (Hlen1 & _).
    exists v. split.
    + rewrite nth_error_app2 by lia.
      replace (i - List.length v1)%nat with 0%nat by lia. reflexivity.
    + apply embed_one_spec in E2 as (_ & Hv). specialize (Hv v eq_refl).
      destruct (nonblank t); [|exact Hv].
      exists v1, w1. split; [|exact Hv].
      rewrite embed_batch_each, <- Hl, firstn_app, Nat.sub_diag, firstn_all.
      cbn [firstn]. now rewrite app_nil_r.
  - intros Hok. destruct (embed_each_returns text_list Hok w) as (vs & w' & E).
    exists vs, w'. now rewrite embed_batch_each.
Qed.

(** An instance of X25: a text, a run of spaces and the empty text. *)
Lemma embed_batch_aligned_witness :
  (forall (t : str) (o : @remote (example_collab 4)),
      In t example_texts -> nonblank t = true ->
      is_ok (fst (@post_embeddings (example_collab 4) t o)) = true) /\
  exists (vs : list vec) (w' : @World (example_collab 4)),
    @embed_batch (example_collab 4) example_texts (example_world 4) = (Ok vs, w') /\
    List.length vs = 3%nat.
Proof.
  assert (H : forall (t : str) (o : @remote (example_collab 4)),
             In t example_texts -> nonblank t = true ->
             is_ok (fst (@post_embeddings (example_collab 4) t o)) = true)
    by (intros; reflexivity).
  split; [exact H|].
  destruct (@embed_batch_aligned (example_collab 4) example_texts (example_world 4))
    as (Hal & _ & Hret).
  destruct (Hret H) as (vs & w' & E).
  exists vs, w'. split; [exact E|]. apply (Hal vs w' E).
Defined.

(** C2, at the input where it fails: with an embedding model of 384
    dimensions, for which the startup probe fixes the size of the
    collection at 384, [embed_batch] on a text and a run of spaces returns
    a vector of 384 components for the text and the zero vector of 768
    components for the run of spaces: the vector substituted for a blank
    text does not have the fixed dimensionality. *)
Theorem embed_batch_zero_vector_not_of_fixed_dimension :
  let w1 := snd (@_start (example_collab 384) (example_world 384)) in
  let r := @embed_batch (example_collab 384) [lit "hello"; lit "   "] w1 in
  collections w1 = [(COLL, 384%nat)] /\
  exists v1 v2 : vec,
    fst r = Ok [v1; v2] /\
    List.length v1 = 384%nat /\
    v2 = repeat 0%float 768 /\
    List.length v2 <> 384%nat.
Proof.
  cbv zeta. split; [vm_compute; reflexivity|].
  eexists. eexists. split; [vm_compute; reflexivity|].
  split; [vm_compute; reflexivity|]. split; [reflexivity|].
  vm_compute. discriminate.
Qed.

(** ** Batch partitioning and indexing *)

Lemma groups_concat {A : Type} (fuel : nat) :
  forall (n : nat) (items : list A),
    (0 < n)%nat -> (List.length items <= fuel)%nat ->
    List.concat (groups fuel n items) = items.
Proof.
  induction fuel as [|fuel IH]; intros n items Hn Hf.
  - destruct items; [reflexivity|cbn in Hf; lia].
  - destruct items as [|a items]; [reflexivity|].
    cbn [groups List.concat]. rewrite IH.
    + apply firstn_skipn.
    + exact Hn.
    + rewrite length_skipn. cbn [List.length] in *. lia.
Qed.

(** For a positive batch size, partitioning and flattening gives the
    sequence back. *)
Lemma chunk_list_concat {A : Type} (items : list A) (n : Z) :
  0 < n ->
  exists gs : list (list A), chunk_list items n = Ok gs /\ List.concat gs = items.
Proof.
  intros Hn. unfold chunk_list.
  destruct (n =? 0) eqn:E0; [apply Z.eqb_eq in E0; lia|].
  destruct (n <? 0) eqn:E1; [apply Z.ltb_lt in E1; lia|].
  eexists. split; [reflexivity|]. apply groups_concat; lia.
Qed.

Lemma py_index_nat {A : Type} (l : list A) (k : nat) :
  py_index l (Z.of_nat k) =
  match nth_error l k with
  | Some a => Ok a
  | None => Raise (IndexError "list index out of range")
  end.
Proof.
  unfold py_index.
  destruct (Z.of_nat k <? 0) eqn:E; [apply Z.ltb_lt in E; lia|].
  now rewrite E, Nat2Z.id.
Qed.

Lemma py_index_nat_ok {A : Type} (l : list A) (k : nat) (a : A) :
  py_index l (Z.of_nat k) = Ok a -> nth_error l k = Some a.
Proof.
  rewrite py_index_nat. destruct (nth_error l k); [|discriminate].
  intros H. now injection H as ->.
Qed.

Lemma Forall2_nth_error {A B : Type} (R : A -> B -> Prop)
      (l1 : list A) (l2 : list B) :
  Forall2 R l1 l2 ->
  forall (j : nat) (a : A) (b : B),
    nth_error l1 j = Some a -> nth_error l2 j = Some b -> R a b.
Proof.
  induction 1 as [|x y l1 l2 Hxy _ IH]; intros j a b H1 H2.
  - destruct j; discriminate.
  - destruct j as [|j]; cbn in H1, H2.
    + injection H1 as <-. injection H2 as <-. exact Hxy.
    + eapply IH; eassumption.
Qed.

Lemma meta_of_payload_of (u : str) (v : vec) (t : str) (m : Meta) :
  meta_of (mkPoint u v (payload_of t m)) = m.
Proof. now destruct m. Qed.

(** ** Building the points of one batch *)

Section PointFacts.
Context {C : Collab}.

Lemma lift_res_run {A : Type} (r r' : Res A) (w w' : World) :
  lift_res r w = (r', w') -> r' = r /\ w' = w.
Proof. unfold lift_res. intros E. now injection E as <- <-. Qed.

(** The point built at position [j] of a batch. *)
Lemma ingest_points_spec (vecs : list vec) :
  forall (ch_batch : list str) (meta : list Meta) (total_points i : nat)
         (pts : list PointStruct) (w w' : World) (r : Res (list PointStruct)),
    ingest_points ch_batch meta total_points i vecs pts w = (r, w') ->
    same_process w w' /\
    forall out : list PointStruct,
      r = Ok out ->
      (total_points + i + List.length vecs <= List.length meta)%nat ->
      exists new : list PointStruct,
        out = pts ++ new /\ List.length new = List.length vecs /\
        forall (j : nat) (p : PointStruct),
          nth_error new j = Some p ->
          nth_error vecs j = Some (vector p) /\
          nth_error ch_batch (i + j) = Some (text (payload p)) /\
          nth_error meta (total_points + i + j) = Some (meta_of p).
Proof.
  induction vecs as [|v vecs IH]; intros ch_batch meta total i pts w w' r E.
  - cbn in E. unfold ret in E. injection E as <- <-.
    split; [apply same_process_refl|]. intros out E _. injection E as <-.
    exists []. rewrite app_nil_r. split; [reflexivity|]. split; [reflexivity|].
    intros [|j] p; discriminate.
  - cbn [ingest_points] in E. step_bind E m w1 E1.
    2:{ apply lift_res_run in E1 as (_ & ->). injection E as <- <-.
        split; [apply same_process_refl|discriminate]. }
    apply lift_res_run in E1 as (Em & ->).
    step_bind E u w2 E2.
    2:{ apply call_total_same_process in E2 as (_ & (a & Ha)). discriminate. }
    apply call_total_same_process in E2 as (Hs2 & _).
    step_bind E t w3 E3.
    2:{ apply lift_res_run in E3 as (_ & ->). injection E as <- <-.
        split; [exact Hs2|discriminate]. }
    apply lift_res_run in E3 as (Et & ->).
    apply IH in E as (Hs & Hout).
    split; [eapply same_process_trans; eassumption|].
    intros out -> Hlen. cbn [List.length] in Hlen.
    destruct (Hout out eq_refl ltac:(lia)) as (new & -> & Hl & Hnew).
    exists (mkPoint u v (payload_of t m) :: new).
    rewrite <- app_assoc. split; [reflexivity|]. split; [cbn; now rewrite Hl|].
    intros [|j] p Hp; cbn [nth_error] in Hp.
    + injection Hp as <-. rewrite meta_of_payload_of. cbn [vector payload text].
      rewrite !Nat.add_0_r. symmetry in Et, Em.
      apply py_index_nat_ok in Et.
      assert (Hk : (Z.of_nat (total + i) <? len meta) = true)
        by (apply Z.ltb_lt; unfold len; lia).
      rewrite Hk in Em. apply py_index_nat_ok in Em.
      now repeat split.
    + destruct (Hnew j p Hp) as (H1 & H2 & H3).
      replace (i + S j)%nat with (S i + j)%nat by lia.
      replace (total + i + S j)%nat with (total + S i + j)%nat by lia.
      now repeat split.
Qed.

Lemma ingest_urls_points_spec (vecs : list vec) :
  forall (ch_batch : list str) (meta : list Meta) (total_points i : nat)
         (pts : list PointStruct) (w w' : World) (r : Res (list PointStruct)),
    ingest_urls_points ch_batch meta total_points i vecs pts w = (r, w') ->
    same_process w w' /\
    forall out : list PointStruct,
      r = Ok out ->
      exists new : list PointStruct,
        out = pts ++ new /\ List.length new = List.length vecs /\
        forall (j : nat) (p : PointStruct),
          nth_error new j = Some p ->
          nth_error vecs j = Some (vector p) /\
          nth_error ch_batch (i + j) = Some (text (payload p)) /\
          nth_error meta (total_points + i + j) = Some (meta_of p).
Proof.
  induction vecs as [|v vecs IH]; intros ch_batch meta total i pts w w' r E.
  - cbn in E. unfold ret in E. injection E as <- <-.
    split; [apply same_process_refl|]. intros out E. injection E as <-.
    exists []. rewrite app_nil_r. split; [reflexivity|]. split; [reflexivity|].
    intros [|j] p; discriminate.
  - cbn [ingest_urls_points] in E. step_bind E u w1 E1.
    2:{ apply call_total_same_process in E1 as (_ & (a & Ha)). discriminate. }
    apply call_total_same_process in E1 as (Hs1 & _).
    step_bind E t w2 E2.
    2:{ apply lift_res_run in E2 as (_ & ->). injection E as <- <-.
        split; [exact Hs1|discriminate]. }
    apply lift_res_run in E2 as (Et & ->).
    step_bind E m w3 E3.
    2:{ apply lift_res_run in E3 as (_ & ->). injection E as <- <-.
        split; [exact Hs1|discriminate]. }
    apply lift_res_run in E3 as (Em & ->).
    apply IH in E as (Hs & Hout).
    split; [eapply same_process_trans; eassumption|].
    intros out ->.
    destruct (Hout out eq_refl) as (new & -> & Hl & Hnew).
    exists (mkPoint u v (payload_of t m) :: new).
    rewrite <- app_assoc. split; [reflexivity|]. split; [cbn; now rewrite Hl|].
    intros [|j] p Hp; cbn [nth_error] in Hp.
    + injection Hp as <-. rewrite meta_of_payload_of. cbn [vector payload text].
      rewrite !Nat.add_0_r. symmetry in Et, Em.
      apply py_index_nat_ok in Et. apply py_index_nat_ok in Em.
      now repeat split.
    + destruct (Hnew j p Hp) as (H1 & H2 & H3).
      replace (i + S j)%nat with (S i + j)%nat by lia.
      replace (total + i + S j)%nat with (total + S i + j)%nat by lia.
      now repeat split.
Qed.

Lemma make_points_spec (ep : entry_point) (ch_batch : list str)
      (meta : list Meta) (total_points : nat) (vecs : list vec)
      (w w' : World) (r : Res (list PointStruct)) :
  make_points ep ch_batch meta total_points vecs w = (r, w') ->
  same_process w w' /\
  forall pts : list PointStruct,
    r = Ok pts ->
    (total_points + List.length vecs <= List.length meta)%nat ->
    List.length pts = List.length vecs /\
    forall (j : nat) (p : PointStruct),
      nth_error pts j = Some p ->
      nth_error vecs j = Some (vector p) /\
      nth_error ch_batch j = Some (text (payload p)) /\
      nth_error meta (total_points + j) = Some (meta_of p).
Proof.
  destruct ep; cbn [make_points]; intros E.
  - apply ingest_points_spec in E as (Hs & Hout). split; [exact Hs|].
    intros pts -> Hlen.
    destruct (Hout pts eq_refl ltac:(lia)) as (new & Hpts & Hl & Hnew).
    cbn [app] in Hpts. subst new. split; [exact Hl|].
    intros j p Hp. destruct (Hnew j p Hp) as (H1 & H2 & H3).
    rewrite Nat.add_0_r in H3. now repeat split.
  - apply ingest_urls_points_spec in E as (Hs & Hout). split; [exact Hs|].
    intros pts -> _.
    destruct (Hout pts eq_refl) as (new & Hpts & Hl & Hnew).
    cbn [app] in Hpts. subst new. split; [exact Hl|].
    intros j p Hp. destruct (Hnew j p Hp) as (H1 & H2 & H3).
    rewrite Nat.add_0_r in H3. now repeat split.
Qed.

End PointFacts.

(** ** Storing the chunks *)

Section StoreFacts.
Context {C : Collab}.

Lemma aligned_nil (all_chunks : list str) (meta : list Meta) (base : nat) :
  aligned all_chunks meta base [].
Proof. intros [|j] p; discriminate. Qed.

Lemma aligned_prefix (all_chunks : list str) (meta : list Meta) (base : nat)
      (a b : list PointStruct) :
  aligned all_chunks meta base (a ++ b) -> aligned all_chunks meta base a.
Proof.
  intros H j p Hp. apply H. rewrite nth_error_app1; [exact Hp|].
  apply nth_error_Some. congruence.
Qed.

Lemma aligned_app (c1 c2 : list str) (meta : list Meta) (base : nat)
      (a b : list PointStruct) :
  List.length a = List.length c1 ->
  aligned c1 meta base a ->
  aligned c2 meta (base + List.length c1) b ->
  aligned (c1 ++ c2) meta base (a ++ b).
Proof.
  intros Hl Ha Hb j p Hp.
  destruct (Nat.lt_ge_cases j (List.length a)) as [Hj|Hj].
  - rewrite nth_error_app1 in Hp by exact Hj.
    destruct (Ha j p Hp) as (H1 & H2 & H3).
    rewrite nth_error_app1 by lia. now repeat split.
  - rewrite nth_error_app2 in Hp by exact Hj.
    destruct (Hb _ p Hp) as (H1 & H2 & H3).
    rewrite nth_error_app2 by lia. rewrite <- Hl.
    replace (base + j)%nat with (base + List.length c1 + (j - List.length a))%nat
      by lia.
    now repeat split.
Qed.

Lemma qdrant_upsert_spec (up : list PointStruct) (w w' : World) (r : Res unit) :
  qdrant_upsert up w = (r, w') ->
  RUNTIME w' = RUNTIME w /\ collections w' = collections w /\
  match r with
  | Ok _ => upserted w' = upserted w ++ up
  | Raise _ => upserted w' = upserted w
  end.
Proof.
  unfold qdrant_upsert. intros E. step_bind E u w1 E1;
    apply call_same_process in E1 as ((H1 & H2 & H3) & _).
  - injection E as <- <-. cbn. rewrite H3. now repeat split.
  - injection E as <- <-. now repeat split.
Qed.

(** The upsert loop sends the sub-batches in order; when it returns it
    has sent all of them and counted every point. *)
Lemma upsert_loop_spec (ups : list (list PointStruct)) :
  forall (total_points : nat) (w w' : World) (r : Res nat),
    upsert_loop ups total_points w = (r, w') ->
    RUNTIME w' = RUNTIME w /\ collections w' = collections w /\
    exists done rest : list PointStruct,
      List.concat ups = done ++ rest /\
      upserted w' = upserted w ++ done /\
      forall n : nat, r = Ok n ->
                      rest = [] /\ n = (total_points + List.length done)%nat.
Proof.
  induction ups as [|up ups IH]; intros total w w' r E.
  - cbn in E. unfold ret in E. injection E as <- <-.
    split; [reflexivity|]. split; [reflexivity|].
    exists [], [].
    split; [reflexivity|]. split; [now rewrite app_nil_r|].
    intros n Hn. injection Hn as <-. split; [reflexivity|cbn; lia].
  - cbn [upsert_loop] in E. step_bind E u w1 E1;
      apply qdrant_upsert_spec in E1 as (H1 & H2 & H3).
    + apply IH in E as (G1 & G2 & done & rest & Hc & Hu & Hn).
      split; [congruence|]. split; [congruence|].
      exists (up ++ done), rest. cbn [List.concat].
      split; [rewrite Hc; now rewrite app_assoc|].
      split; [rewrite Hu, H3; now rewrite app_assoc|].
      intros n Hr. destruct (Hn n Hr) as (-> & ->).
      split; [reflexivity|]. rewrite length_app. lia.
    + injection E as <- <-.
      split; [exact H1|]. split; [exact H2|].
      exists [], (List.concat (up :: ups)). rewrite app_nil_r.
      split; [reflexivity|]. split; [exact H3|discriminate].
Qed.

(** The invariant of the outer loop: what has been sent since the loop
    was entered is aligned with the chunks of the remaining batches and
    the metadata from [total_points] on. *)
Lemma store_loop_spec (ep : entry_point) (batches : list (list str)) :
  forall (meta : list Meta) (total_points : nat) (w w' : World) (r : Res nat),
    store_loop ep batches meta total_points w = (r, w') ->
    0 < UPSERT_BATCH (RUNTIME w) ->
    (total_points + List.length (List.concat batches) <= List.length meta)%nat ->
    RUNTIME w' = RUNTIME w /\ collections w' = collections w /\
    exists new : list PointStruct,
      upserted w' = upserted w ++ new /\
      aligned (List.concat batches) meta total_points new /\
      forall n : nat,
        r = Ok n ->
        n = (total_points + List.length (List.concat batches))%nat /\
        List.length new = List.length (List.concat batches).
Proof.
  induction batches as [|b rest IH]; intros meta total w w' r E Hub Hlen.
  - cbn in E. unfold ret in E. injection E as <- <-.
    split; [reflexivity|]. split; [reflexivity|].
    exists []. rewrite app_nil_r. split; [reflexivity|].
    split; [apply aligned_nil|]. intros n Hn. injection Hn as <-. cbn. lia.
  - cbn [List.concat] in Hlen |- *. rewrite length_app in Hlen |- *.
    cbn [store_loop] in E.
    (* embed the batch *)
    step_bind E vecs w1 E1; apply embed_batch_spec in E1 as (Hs1 & Hv).
    2:{ injection E as <- <-. destruct Hs1 as (A1 & A2 & A3).
        split; [exact A1|]. split; [exact A2|].
        exists []. rewrite app_nil_r. split; [exact A3|].
        split; [apply aligned_nil|discriminate]. }
    destruct (Hv vecs eq_refl) as (Hlv & Hemb).
    (* build the points *)
    step_bind E pts w2 E2; apply make_points_spec in E2 as (Hs2 & Hp).
    2:{ injection E as <- <-.
        destruct (same_process_trans _ _ _ Hs1 Hs2) as (A1 & A2 & A3).
        split; [exact A1|]. split; [exact A2|].
        exists []. rewrite app_nil_r. split; [exact A3|].
        split; [apply aligned_nil|discriminate]. }
    destruct (Hp pts eq_refl ltac:(lia)) as (Hlp & Hpts).
    destruct (same_process_trans _ _ _ Hs1 Hs2) as (A1 & A2 & A3).
    assert (Hal : aligned b meta total pts).
    { intros j p Hj. destruct (Hpts j p Hj) as (P1 & P2 & P3).
      split; [exact P2|]. split; [exact P3|].
      eapply Forall2_nth_error; eassumption. }
    (* partition and upsert *)
    unfold read_runtime in E at 1. rewrite bind_run in E.
    destruct (chunk_list_concat pts (UPSERT_BATCH (RUNTIME w2))
                                ltac:(rewrite A1; exact Hub))
      as (ups & Hups & Hcat).
    rewrite Hups in E. unfold lift_res in E at 1. rewrite bind_run in E.
    step_bind E n1 w3 E3;
      apply upsert_loop_spec in E3 as (B1 & B2 & done & rem & Hc & Hu & Hn).
    2:{ injection E as <- <-.
        split; [congruence|]. split; [congruence|].
        exists done. split; [congruence|]. split; [|discriminate].
        rewrite Hcat in Hc. rewrite Hc in Hal.
        intros j p Hj. destruct (aligned_prefix _ _ _ _ _ Hal j p Hj)
          as (P1 & P2 & P3).
        split; [|now split]. rewrite nth_error_app1; [exact P1|].
        apply nth_error_Some. congruence. }
    destruct (Hn n1 eq_refl) as (-> & ->).
    rewrite app_nil_r in Hc. rewrite Hcat in Hc. subst done.
    apply IH in E as (D1 & D2 & new & Hnew & Hal' & Hfin).
    + split; [congruence|]. split; [congruence|].
      exists (pts ++ new).
      split; [rewrite Hnew, Hu, A3; now rewrite app_assoc|].
      split.
      * apply aligned_app; [congruence|exact Hal|].
        rewrite <- Hlv, <- Hlp. exact Hal'.
      * intros n Hr. destruct (Hfin n Hr) as (-> & Hl2).
        rewrite !length_app. lia.
    + rewrite B1, A1. exact Hub.
    + lia.
Qed.

End StoreFacts.

Section IngestFacts.
Context {C : Collab}.

Lemma ingest_bytes_spec (fname ctype : str) (raw : bytes) (proj : str)
      (chunks_out : list str) (meta_out : list Meta) (w : World) :
  ingest_bytes fname ctype raw proj chunks_out meta_out w =
  match extract_text (Some fname) (Some ctype) raw with
  | Ok t =>
      let chs := chunks t (CHUNK_SIZE (RUNTIME w)) (CHUNK_OVERLAP (RUNTIME w)) in
      (Ok (chunks_out ++ chs, meta_out ++ map (fun _ => mkMeta proj fname) chs), w)
  | Raise e => (Raise e, w)
  end.
Proof.
  unfold ingest_bytes. rewrite bind_run. unfold lift_res.
  now destruct (extract_text (Some fname) (Some ctype) raw).
Qed.

Lemma store_chunks_spec (ep : entry_point) (all_chunks : list str)
      (meta : list Meta) (w w' : World) (r : Res nat) :
  store_chunks ep all_chunks meta w = (r, w') ->
  0 < EMBED_BATCH (RUNTIME w) -> 0 < UPSERT_BATCH (RUNTIME w) ->
  (List.length all_chunks <= List.length meta)%nat ->
  RUNTIME w' = RUNTIME w /\ collections w' = collections w /\
  exists new : list PointStruct,
    upserted w' = upserted w ++ new /\
    aligned all_chunks meta 0 new /\
    forall n : nat,
      r = Ok n ->
      n = List.length all_chunks /\ List.length new = List.length all_chunks.
Proof.
  unfold store_chunks. intros E Heb Hub Hlen.
  unfold read_runtime in E at 1. rewrite bind_run in E.
  destruct (chunk_list_concat all_chunks (EMBED_BATCH (RUNTIME w)) Heb)
    as (batches & Hb & Hcat).
  rewrite Hb in E. unfold lift_res in E at 1. rewrite bind_run in E.
  apply store_loop_spec in E; [|exact Hub|rewrite Hcat; lia].
  now rewrite Hcat in E.
Qed.

End IngestFacts.

(** C3: the nested batching loops pair vector, text and metadata by
    absolute index.  For an accumulated chunk list and a metadata list of
    the same length, positive batch sizes, and either way of building the
    points ([ingest] or [ingest_urls]): whatever the run sends to the
    store, whether it ends normally or in an exception, the [k]-th point
    sent carries the text of chunk [k], the metadata record [k], and the
    embedding of chunk [k] (the zero vector if that chunk is blank, a
    vector the service returned for it otherwise); a run that returns has
    sent one point per chunk and returns their number.  [ingest_bytes]
    extends the two lists in parallel, one [{project, file}] record of the
    document per chunk of the document. *)
Theorem ingestion_pairs_by_index {C : Collab} :
  (forall (ep : entry_point) (all_chunks : list str) (meta : list Meta)
          (w : World),
      List.length meta = List.length all_chunks ->
      0 < EMBED_BATCH (RUNTIME w) -> 0 < UPSERT_BATCH (RUNTIME w) ->
      exists new : list PointStruct,
        upserted (snd (store_chunks ep all_chunks meta w)) = upserted w ++ new /\
        (forall (k : nat) (p : PointStruct),
            nth_error new k = Some p ->
            nth_error all_chunks k = Some (text (payload p)) /\
            nth_error meta k =
              Some (mkMeta (project (payload p)) (file (payload p))) /\
            embedding_of (text (payload p)) (vector p)) /\
        (forall n : nat,
            fst (store_chunks ep all_chunks meta w) = Ok n ->
            n = List.length all_chunks /\
            List.length new = List.length all_chunks)) /\
  (forall (fname ctype : str) (raw : bytes) (proj : str)
          (chunks_out : list str) (meta_out : list Meta) (w w' : World)
          (cs : list str) (ms : list Meta),
      ingest_bytes fname ctype raw proj chunks_out meta_out w = (Ok (cs, ms), w') ->
      List.length meta_out = List.length chunks_out ->
      List.length ms = List.length cs /\
      exists chs : list str,
        cs = chunks_out ++ chs /\
        ms = meta_out ++ repeat (mkMeta proj fname) (List.length chs)).
Proof.
  split.
  - intros ep all_chunks meta w Hlen Heb Hub.
    destruct (store_chunks ep all_chunks meta w) as [r w'] eqn:E.
    apply store_chunks_spec in E as (_ & _ & new & Hu & Hal & Hn);
      [|exact Heb|exact Hub|lia].
    exists new. cbn [fst snd]. split; [exact Hu|]. split; [|exact Hn].
    intros k p Hk. destruct (Hal k p Hk) as (H1 & H2 & H3).
    now repeat split.
  - intros fname ctype raw proj chunks_out meta_out w w' cs ms E Hlen.
    rewrite ingest_bytes_spec in E.
    destruct (extract_text (Some fname) (Some ctype) raw) as [t|e];
      [|discriminate].
    cbv zeta in E. injection E as <- <- <-.
    split; [rewrite !length_app, length_map; lia|].
    eexists. split; [reflexivity|]. f_equal.
    induction (chunks t _ _) as [|c l IH]; [reflexivity|].
    cbn. now rewrite IH.
Qed.

(** An instance of C3: three chunks, embedded two at a time and upserted
    one at a time. *)
Lemma ingestion_pairs_by_index_witness :
  List.length example_meta = List.length example_texts /\
  0 < EMBED_BATCH (RUNTIME example_world_small) /\
  0 < UPSERT_BATCH (RUNTIME example_world_small) /\
  exists new : list PointStruct,
    upserted (snd (@store_chunks (example_collab 4) IngestUrls example_texts
                                 example_meta example_world_small))
    = upserted example_world_small ++ new /\
    List.length new = 3%nat.
Proof.
  split; [reflexivity|]. split; [reflexivity|]. split; [reflexivity|].
  destruct (proj1 (@ingestion_pairs_by_index (example_collab 4))
                  IngestUrls example_texts example_meta example_world_small
                  eq_refl eq_refl eq_refl)
    as (new & Hu & _ & Hn).
  exists new. split; [exact Hu|].
  apply (Hn 3%nat). vm_compute. reflexivity.
Defined.

(** ** Runs in which the services answer *)

Section Progress.
Context {C : Collab}.

Lemma bind_ok {A B : Type} (c : M A) (k : A -> M B) (w w1 : World) (a : A) :
  c w = (Ok a, w1) -> bind c k w = k a w1.
Proof. intros E. now rewrite bind_run, E. Qed.

Lemma nth_error_in_range {A : Type} (l : list A) (k : nat) :
  (k < List.length l)%nat -> exists a : A, nth_error l k = Some a.
Proof.
  intros H. destruct (nth_error l k) as [a|] eqn:E; [eauto|].
  apply nth_error_None in E. lia.
Qed.

Lemma uuid4_returns (w : World) :
  exists (u : str) (w1 : World), call_total uuid4 w = (Ok u, w1).
Proof. unfold call_total. destruct (uuid4 (outside w)) as [u o]. eauto. Qed.

Lemma ingest_points_returns (vecs : list vec) :
  forall (ch_batch : list str) (meta : list Meta) (total_points i : nat)
         (pts : list PointStruct) (w : World),
    (i + List.length vecs <= List.length ch_batch)%nat ->
    (total_points + i + List.length vecs <= List.length meta)%nat ->
    exists (out : list PointStruct) (w' : World),
      ingest_points ch_batch meta total_points i vecs pts w = (Ok out, w').
Proof.
  induction vecs as [|v vecs IH]; intros ch_batch meta total i pts w Hc Hm.
  - cbn. unfold ret. eauto.
  - cbn [List.length] in Hc, Hm. cbn [ingest_points].
    destruct (nth_error_in_range meta (total + i) ltac:(lia)) as (m & Em).
    destruct (nth_error_in_range ch_batch i ltac:(lia)) as (t & Et).
    destruct (uuid4_returns w) as (u & w1 & Eu).
    assert (Hk : (Z.of_nat (total + i) <? len meta) = true)
      by (apply Z.ltb_lt; unfold len; lia).
    rewrite Hk, !py_index_nat, Em, Et.
    rewrite (bind_ok _ _ w w m) by reflexivity.
    rewrite (bind_ok _ _ w w1 u) by exact Eu.
    rewrite (bind_ok _ _ w1 w1 t) by reflexivity.
    apply IH; lia.
Qed.

Lemma ingest_urls_points_returns (vecs : list vec) :
  forall (ch_batch : list str) (meta : list Meta) (total_points i : nat)
         (pts : list PointStruct) (w : World),
    (i + List.length vecs <= List.length ch_batch)%nat ->
    (total_points + i + List.length vecs <= List.length meta)%nat ->
    exists (out : list PointStruct) (w' : World),
      ingest_urls_points ch_batch meta total_points i vecs pts w = (Ok out, w').
Proof.
  induction vecs as [|v vecs IH]; intros ch_batch meta total i pts w Hc Hm.
  - cbn. unfold ret. eauto.
  - cbn [List.length] in Hc, Hm. cbn [ingest_urls_points].
    destruct (nth_error_in_range meta (total + i) ltac:(lia)) as (m & Em).
    destruct (nth_error_in_range ch_batch i ltac:(lia)) as (t & Et).
    destruct (uuid4_returns w) as (u & w1 & Eu).
    rewrite !py_index_nat, Em, Et.
    rewrite (bind_ok _ _ w w1 u) by exact Eu.
    rewrite (bind_ok _ _ w1 w1 t) by reflexivity.
    rewrite (bind_ok _ _ w1 w1 m) by reflexivity.
    apply IH; lia.
Qed.

Lemma make_points_returns (ep : entry_point) (ch_batch : list str)
      (meta : list Meta) (total_points : nat) (vecs : list vec) (w : World) :
  (List.length vecs <= List.length ch_batch)%nat ->
  (total_points + List.length vecs <= List.length meta)%nat ->
  exists (pts : list PointStruct) (w' : World),
    make_points ep ch_batch meta total_points vecs w = (Ok pts, w').
Proof.
  intros Hc Hm. destruct ep; cbn [make_points].
  - apply ingest_points_returns; lia.
  - apply ingest_urls_points_returns; lia.
Qed.

Lemma upsert_loop_returns (ups : list (list PointStruct)) :
  (forall o : remote, is_ok (fst (qdrant_request o)) = true) ->
  forall (total_points : nat) (w : World),
  exists (n : nat) (w' : World), upsert_loop ups total_points w = (Ok n, w').
Proof.
  intros Hq. induction ups as [|up ups IH]; intros total w.
  - cbn. unfold ret. eauto.
  - cbn [upsert_loop]. unfold qdrant_upsert. rewrite !bind_run.
    unfold call. specialize (Hq (outside w)).
    destruct (qdrant_request (outside w)) as [[u|e] o]; [|discriminate].
    apply IH.
Qed.

Lemma store_loop_returns (ep : entry_point) (batches : list (list str)) :
  services_up ->
  forall (meta : list Meta) (total_points : nat) (w : World),
    0 < UPSERT_BATCH (RUNTIME w) ->
    (total_points + List.length (List.concat batches) <= List.length meta)%nat ->
    exists (n : nat) (w' : World),
      store_loop ep batches meta total_points w = (Ok n, w').
Proof.
  intros (Hemb & Hq).
  induction batches as [|b rest IH]; intros meta total w Hub Hlen.
  - cbn. unfold ret. eauto.
  - cbn [List.concat] in Hlen. rewrite length_app in Hlen.
    cbn [store_loop].
    destruct (embed_each_returns b (fun t o _ _ => Hemb t o) w)
      as (vecs & w1 & E1).
    rewrite <- embed_batch_each in E1.
    rewrite (bind_ok _ _ _ _ _ E1).
    apply embed_batch_spec in E1 as ((A1 & _) & Hv).
    destruct (Hv vecs eq_refl) as (Hlv & _).
    destruct (make_points_returns ep b meta total vecs w1 ltac:(lia) ltac:(lia))
      as (pts & w2 & E2).
    rewrite (bind_ok _ _ _ _ _ E2).
    apply make_points_spec in E2 as ((B1 & _) & Hp).
    destruct (Hp pts eq_refl ltac:(lia)) as (Hlp & _).
    unfold read_runtime at 1. rewrite bind_run.
    destruct (chunk_list_concat pts (UPSERT_BATCH (RUNTIME w2))
                                ltac:(rewrite B1, A1; exact Hub))
      as (ups & Hups & Hcat).
    rewrite Hups. unfold lift_res at 1. rewrite bind_run.
    destruct (upsert_loop_returns ups Hq total w2) as (n1 & w3 & E3).
    rewrite (bind_ok _ _ _ _ _ E3).
    apply upsert_loop_spec in E3 as (D1 & _ & done & rem & Hc & _ & Hn).
    destruct (Hn n1 eq_refl) as (-> & ->).
    rewrite app_nil_r, Hcat in Hc. subst done.
    apply IH; [rewrite D1, B1, A1; exact Hub|lia].
Qed.

Lemma store_chunks_returns (ep : entry_point) (all_chunks : list str)
      (meta : list Meta) (w : World) :
  services_up ->
  0 < EMBED_BATCH (RUNTIME w) -> 0 < UPSERT_BATCH (RUNTIME w) ->
  (List.length all_chunks <= List.length meta)%nat ->
  exists (n : nat) (w' : World),
    store_chunks ep all_chunks meta w = (Ok n, w').
Proof.
  intros Hup Heb Hub Hlen. unfold store_chunks.
  unfold read_runtime at 1. rewrite bind_run.
  destruct (chunk_list_concat all_chunks (EMBED_BATCH (RUNTIME w)) Heb)
    as (batches & Hb & Hcat).
  rewrite Hb. unfold lift_res at 1. rewrite bind_run.
  apply store_loop_returns; [exact Hup|exact Hub|rewrite Hcat; lia].
Qed.

End Progress.

(** ** End-to-end ingestion of one upload *)

(** A text of [2*800 - 120] characters has three chunks under the default
    configuration: the offsets 0, 680 and 1360 are all below 1480. *)
Lemma chunks_1480 (t : str) :
  len t = 1480 ->
  chunks t 800 120 =
  [py_slice t 0 800; py_slice t 680 1480; py_slice t 1360 2160].
Proof.
  intros Hl. rewrite chunks_closed, Hl. reflexivity.
Qed.

(** C5 as amended: an upload whose extracted text has exactly
    [2*CHUNK_SIZE - CHUNK_OVERLAP = 1480] characters, ingested under the
    default configuration while the services answer, gives three chunks
    (at offsets 0, 680 and 1360) and three stored points, each tagged with
    the given project and the file name of the upload. *)
Theorem ingest_1480_chars_three_points {C : Collab}
        (f : UploadFile) (proj : str) (t : str) (w : World) :
  services_up ->
  RUNTIME w = RUNTIME_default ->
  extract_text (Some (filename f)) (Some (or_empty (content_type f))) (content f)
    = Ok t ->
  len t = 2 * CHUNK_SIZE RUNTIME_default - CHUNK_OVERLAP RUNTIME_default ->
  exists (resp : IngestResponse) (w' : World) (p1 p2 p3 : PointStruct),
    ingest [f] proj w = (Ok resp, w') /\
    ir_ok resp = true /\ ir_chunks resp = 3%nat /\
    upserted w' = upserted w ++ [p1; p2; p3] /\
    Forall (fun p => project (payload p) = proj /\
                     file (payload p) = filename f) [p1; p2; p3] /\
    text (payload p1) = py_slice t 0 800 /\
    text (payload p2) = py_slice t 680 1480 /\
    text (payload p3) = py_slice t 1360 2160.
Proof.
  intros Hup Hrt Hex Hlen. cbn in Hlen.
  unfold ingest. cbn [ingest_read].
  rewrite !bind_run, ingest_bytes_spec, Hex. cbv zeta.
  rewrite Hrt. cbn [CHUNK_SIZE CHUNK_OVERLAP RUNTIME_default].
  rewrite (chunks_1480 t Hlen). unfold ret at 1. cbn [fst snd app map].
  set (cs := [py_slice t 0 800; py_slice t 680 1480; py_slice t 1360 2160]).
  set (ms := [mkMeta proj (filename f); mkMeta proj (filename f);
              mkMeta proj (filename f)]).
  destruct (store_chunks_returns Ingest cs ms w Hup
              ltac:(rewrite Hrt; reflexivity) ltac:(rewrite Hrt; reflexivity)
              ltac:(cbn; lia)) as (n & w' & E).
  rewrite (bind_ok _ _ _ _ _ E). unfold ret.
  apply store_chunks_spec in E as (_ & _ & new & Hu & Hal & Hn);
    [|rewrite Hrt; reflexivity|rewrite Hrt; reflexivity|cbn; lia].
  destruct (Hn n eq_refl) as (-> & Hl).
  destruct new as [|p1 [|p2 [|p3 [|p4 new]]]]; try discriminate Hl.
  exists (mkIngestResponse true proj (List.length cs) [filename f]), w', p1, p2, p3.
  destruct (Hal 0%nat p1 eq_refl) as (T1 & M1 & _).
  destruct (Hal 1%nat p2 eq_refl) as (T2 & M2 & _).
  destruct (Hal 2%nat p3 eq_refl) as (T3 & M3 & _).
  cbn in T1, T2, T3, M1, M2, M3.
  injection T1 as T1. injection T2 as T2. injection T3 as T3.
  injection M1 as P1 F1. injection M2 as P2 F2. injection M3 as P3 F3.
  repeat split; try reflexivity; try exact Hu; try congruence.
  repeat constructor; congruence.
Qed.

(** An instance of the amended C5: a [.txt] upload of 1480 letters. *)
Lemma ingest_1480_chars_three_points_witness :
  @services_up (example_collab 768) /\
  RUNTIME (example_world 768) = RUNTIME_default /\
  @extract_text (example_collab 768) (Some (filename upload_1480))
                (Some (or_empty (content_type upload_1480)))
                (content upload_1480) = Ok (repeat "a"%char 1480) /\
  len (repeat "a"%char 1480) = 2 * CHUNK_SIZE RUNTIME_default
                               - CHUNK_OVERLAP RUNTIME_default /\
  exists (resp : IngestResponse) (w' : @World (example_collab 768)),
    @ingest (example_collab 768) [upload_1480] (lit "default") (example_world 768)
    = (Ok resp, w') /\
    ir_chunks resp = 3%nat.
Proof.
  assert (Hup : @services_up (example_collab 768))
    by (split; intros; reflexivity).
  assert (Hex : @extract_text (example_collab 768) (Some (filename upload_1480))
                  (Some (or_empty (content_type upload_1480)))
                  (content upload_1480) = Ok (repeat "a"%char 1480))
    by (vm_compute; reflexivity).
  assert (Hlen : len (repeat "a"%char 1480)
                 = 2 * CHUNK_SIZE RUNTIME_default - CHUNK_OVERLAP RUNTIME_default)
    by (vm_compute; reflexivity).
  split; [exact Hup|]. split; [reflexivity|]. split; [exact Hex|].
  split; [exact Hlen|].
  destruct (@ingest_1480_chars_three_points (example_collab 768) upload_1480
              (lit "default") (repeat "a"%char 1480) (example_world 768)
              Hup eq_refl Hex Hlen)
    as (resp & w' & p1 & p2 & p3 & E & _ & Hc & _).
  exists resp, w'. split; [exact E|exact Hc].
Defined.

(** C5 as stated fails: the upload of [2*800 - 120 = 1480] characters,
    ingested under the default configuration, gives three chunks and three
    stored points, not two. *)
Lemma ingest_1480_chars_not_two_points :
  let r := @ingest (example_collab 768) [upload_1480] (lit "default")
                   (example_world 768) in
  len (content upload_1480) = 2 * 800 - 120 /\
  RUNTIME (example_world 768) = RUNTIME_default /\
  List.length (chunks (repeat "a"%char 1480) 800 120) = 3%nat /\
  (exists resp : IngestResponse, fst r = Ok resp /\ ir_chunks resp = 3%nat) /\
  List.length (upserted (snd r)) = 3%nat /\
  List.length (upserted (snd r)) <> 2%nat.
Proof.
  cbv zeta.
  assert (H : List.length
                (upserted (snd (@ingest (example_collab 768) [upload_1480]
                                        (lit "default") (example_world 768))))
              = 3%nat) by (vm_compute; reflexivity).
  split; [vm_compute; reflexivity|]. split; [reflexivity|].
  split; [vm_compute; reflexivity|]. split.
  - eexists. split; [vm_compute; reflexivity|reflexivity].
  - split; [exact H|]. rewrite H. discriminate.
Qed.

(** C4, at the input where it fails: with an embedding model of 384
    dimensions the startup probe creates the collection with size 384;
    the upload of a file of three spaces then succeeds and sends one
    point whose vector is the zero vector of 768 components. *)
Theorem blank_chunk_vector_ignores_probe :
  let w1 := snd (@_start (example_collab 384) (example_world 384)) in
  let r := @ingest (example_collab 384) [upload_blank] (lit "default") w1 in
  collections w1 = [(COLL, 384%nat)] /\
  is_ok (fst r) = true /\
  exists p : PointStruct,
    upserted (snd r) = [p] /\
    text (payload p) = lit "   " /\
    vector p = repeat 0%float 768 /\
    List.length (vector p) <> 384%nat.
Proof.
  cbv zeta. split; [vm_compute; reflexivity|]. split; [vm_compute; reflexivity|].
  eexists. split; [vm_compute; reflexivity|].
  split; [reflexivity|]. split; [reflexivity|].
  vm_compute. discriminate.
Qed.

(** ** URL ingestion *)

Section UrlFacts.
Context {C : Collab}.

Lemma set_outside_twice (w : World) (o o' : remote) :
  set_outside (set_outside w o) o' = set_outside w o'.
Proof. reflexivity. Qed.

Lemma set_outside_same (w : World) : set_outside w (outside w) = w.
Proof. now destruct w. Qed.

(** One iteration of the first loop of [ingest_urls]: the document is
    added when it goes through, and the accumulators are left alone when
    the [try] block raises; the iteration itself never raises. *)
Lemma fetch_url_caught (u : str) (bearer : option str) (proj : str)
      (acc : Fetched) (w : World) :
  catch (fetch_url u bearer proj acc) (fun _ => ret acc) w =
  (Ok (match document_of (RUNTIME w)
               (u, fst (requests_get u (auth_headers bearer) (outside w))) with
       | Some d => add_docs proj acc [d]
       | None => acc
       end),
   set_outside w (snd (requests_get u (auth_headers bearer) (outside w)))).
Proof.
  unfold catch, fetch_url, http_get, document_of. rewrite !bind_run.
  unfold call. cbn [fst snd].
  destruct (requests_get u (auth_headers bearer) (outside w)) as [[[status data]|e] o];
    cbn [fst snd]; [|reflexivity].
  destruct (status =? 200); cbn [negb]; [|reflexivity].
  unfold ret at 1. rewrite bind_run, ingest_bytes_spec.
  cbn [RUNTIME set_outside].
  destruct (extract_text (Some (fname_of u)) (Some (ctype_of (lower u))) data)
    as [t|e]; [|reflexivity].
  cbv zeta. unfold ret, add_docs, doc_chunks, doc_meta.
  cbn [fst snd flat_map List.length]. now rewrite !app_nil_r.
Qed.

Lemma add_docs_app (proj : str) (acc : Fetched) (d1 d2 : list (str * list str)) :
  add_docs proj (add_docs proj acc d1) d2 = add_docs proj acc (d1 ++ d2).
Proof.
  unfold add_docs. cbn [f_chunks f_meta f_count].
  rewrite !flat_map_app, !app_assoc, length_app. f_equal. lia.
Qed.

Lemma add_docs_nil (proj : str) (acc : Fetched) : add_docs proj acc [] = acc.
Proof.
  destruct acc as [cs ms n]. unfold add_docs. cbn.
  rewrite !app_nil_r. f_equal. lia.
Qed.

(** The first loop of [ingest_urls] never raises; it accumulates the
    documents that went through, in order, and counts them. *)
Lemma fetch_urls_spec (bearer : option str) (proj : str) (urls : list str) :
  forall (acc : Fetched) (w : World),
    fetch_urls urls bearer proj acc w =
    (Ok (add_docs proj acc
           (successes (map (document_of (RUNTIME w))
                           (fst (fetch_trace urls bearer (outside w)))))),
     set_outside w (snd (fetch_trace urls bearer (outside w)))).
Proof.
  induction urls as [|u rest IH]; intros acc w.
  - cbn. unfold ret. now rewrite add_docs_nil, set_outside_same.
  - cbn [fetch_urls fetch_trace]. rewrite bind_run, fetch_url_caught, IH.
    cbn [RUNTIME outside set_outside].
    destruct (requests_get u (auth_headers bearer) (outside w)) as [r o].
    cbn [fst snd].
    destruct (fetch_trace rest bearer o) as [tr o'']. cbn [fst snd map successes].
    rewrite set_outside_twice.
    destruct (document_of (RUNTIME w) (u, r)) as [d|]; [|reflexivity].
    now rewrite add_docs_app.
Qed.

Lemma add_docs_lengths (proj : str) (acc : Fetched) (ds : list (str * list str)) :
  List.length (f_meta acc) = List.length (f_chunks acc) ->
  List.length (f_meta (add_docs proj acc ds))
  = List.length (f_chunks (add_docs proj acc ds)).
Proof.
  intros H. unfold add_docs. cbn [f_meta f_chunks]. rewrite !length_app, H.
  f_equal. induction ds as [|d ds IH]; [reflexivity|].
  cbn [flat_map]. rewrite !length_app, IH. unfold doc_meta, doc_chunks.
  now rewrite length_map.
Qed.

End UrlFacts.

(** C9: a URL that cannot be fetched does not abort [ingest_urls].  A GET
    that raises or answers with a status other than 200, or a body whose
    extraction raises, makes its URL a failed one; every other URL is a
    processed document.  While the embedding service and the vector store
    answer and the batch sizes are positive, the call returns [ok], with
    [fetched] the number of processed documents and [chunks] the number of
    their chunks, and it has sent to the store exactly the chunks of the
    processed documents, in order, each with the project of the request
    and the file name taken from its URL. *)
Theorem ingest_urls_skips_failed_documents {C : Collab}
        (body : UrlIngest) (w : World) :
  services_up ->
  0 < EMBED_BATCH (RUNTIME w) -> 0 < UPSERT_BATCH (RUNTIME w) ->
  let trace := fst (fetch_trace (ui_urls body) (ui_bearer body) (outside w)) in
  let docs := successes (map (document_of (RUNTIME w)) trace) in
  (forall (u : str) (e : exn), document_of (RUNTIME w) (u, Raise e) = None) /\
  (forall (u : str) (status : Z) (data : bytes),
      status <> 200 -> document_of (RUNTIME w) (u, Ok (status, data)) = None) /\
  List.length trace = List.length (ui_urls body) /\
  exists (resp : UrlResponse) (w' : World) (new : list PointStruct),
    ingest_urls body w = (Ok resp, w') /\
    ur_ok resp = true /\ ur_project resp = ui_project body /\
    ur_fetched resp = List.length docs /\
    ur_chunks resp = List.length (flat_map doc_chunks docs) /\
    upserted w' = upserted w ++ new /\
    List.length new = List.length (flat_map doc_chunks docs) /\
    forall (k : nat) (p : PointStruct),
      nth_error new k = Some p ->
      nth_error (flat_map doc_chunks docs) k = Some (text (payload p)) /\
      nth_error (flat_map (doc_meta (ui_project body)) docs) k = Some (meta_of p).
Proof.
  intros Hup Heb Hub trace docs.
  split; [reflexivity|]. split.
  { intros u status data Hs. unfold document_of. cbn [snd].
    destruct (status =? 200) eqn:E; [apply Z.eqb_eq in E; lia|reflexivity]. }
  split.
  { subst trace. generalize (outside w).
    induction (ui_urls body) as [|u rest IH]; intros o; [reflexivity|].
    cbn [fetch_trace]. destruct (requests_get u _ o) as [r o'].
    specialize (IH o'). destruct (fetch_trace rest _ o') as [tr o''].
    cbn [fst List.length] in *. now rewrite IH. }
  unfold ingest_urls. rewrite bind_run, fetch_urls_spec. fold trace docs.
  set (w1 := set_outside w _).
  set (acc := add_docs (ui_project body) (mkFetched [] [] 0) docs).
  assert (Hacc : List.length (f_meta acc) = List.length (f_chunks acc))
    by (apply add_docs_lengths; reflexivity).
  destruct (store_chunks_returns IngestUrls (f_chunks acc) (f_meta acc) w1 Hup
              Heb Hub ltac:(lia)) as (n & w' & E).
  rewrite (bind_ok _ _ _ _ _ E). unfold ret.
  apply store_chunks_spec in E as (_ & _ & new & Hu & Hal & Hn);
    [|exact Heb|exact Hub|lia].
  destruct (Hn n eq_refl) as (-> & Hl).
  exists (mkUrlResponse true (ui_project body) (f_count acc)
                        (List.length (f_chunks acc))), w', new.
  split; [reflexivity|]. split; [reflexivity|]. split; [reflexivity|].
  split; [reflexivity|]. split; [reflexivity|]. split; [exact Hu|].
  split; [exact Hl|].
  intros k p Hk. destruct (Hal k p Hk) as (H1 & H2 & _). now split.
Qed.

(** An instance of C9: three URLs, the second of which answers 404. *)
Lemma ingest_urls_skips_failed_documents_witness :
  @services_up (example_collab 4) /\
  0 < EMBED_BATCH (RUNTIME (example_world 4)) /\
  0 < UPSERT_BATCH (RUNTIME (example_world 4)) /\
  exists (resp : UrlResponse) (w' : @World (example_collab 4)),
    @ingest_urls (example_collab 4) example_request (example_world 4)
    = (Ok resp, w') /\
    ur_ok resp = true /\ ur_fetched resp = 2%nat /\ ur_chunks resp = 2%nat.
Proof.
  assert (Hup : @services_up (example_collab 4)) by (split; intros; reflexivity).
  split; [exact Hup|]. split; [reflexivity|]. split; [reflexivity|].
  destruct (@ingest_urls_skips_failed_documents (example_collab 4)
              example_request (example_world 4) Hup eq_refl eq_refl)
    as (_ & _ & _ & resp & w' & new & E & Hok & _ & Hf & Hc & _).
  exists resp, w'. split; [exact E|]. split; [exact Hok|].
  split; [rewrite Hf|rewrite Hc]; vm_compute; reflexivity.
Defined.

(** An instance of C10: a window size of [-2] with an overlap of 5, on a
    text of six letters. *)
Lemma chunks_terminates_witness :
  (List.length (lit "abcdef") < 7)%nat /\
  chunks_fuel 7 (lit "abcdef") (-2) 5 = Some (chunks (lit "abcdef") (-2) 5) /\
  List.length (chunks (lit "abcdef") (-2) 5) = 6%nat.
Proof.
  assert (H : (List.length (lit "abcdef") < 7)%nat) by (cbn; lia).
  split; [exact H|].
  destruct (chunks_terminates (lit "abcdef") (-2) 5)
    as (_ & _ & out & Hfuel & Hout & _).
  rewrite Hout. split; [apply Hfuel, H|].
  rewrite <- Hout. reflexivity.
Defined.

(** * Further properties of the code *)

(** ** Batch partitioning *)

(** The groups of [chunk_list], in closed form. *)
Lemma groups_closed {A : Type} (fuel : nat) :
  forall (n : nat) (items : list A),
    (0 < n)%nat -> (List.length items <= fuel)%nat ->
    groups fuel n items =
    map (fun k : nat => firstn n (skipn (k * n) items))
        (seq 0 (Z.to_nat (ceil_div (len items) (Z.of_nat n)))).
Proof.
  induction fuel as [|fuel IH]; intros n items Hn Hf.
  - destruct items; [|cbn in Hf; lia].
    pose proof (ceil_div_nonpos (len (@nil A)) (Z.of_nat n)
                                ltac:(lia) ltac:(reflexivity)).
    replace (Z.to_nat _) with 0%nat by lia. reflexivity.
  - destruct items as [|a items].
    + pose proof (ceil_div_nonpos (len (@nil A)) (Z.of_nat n)
                                  ltac:(lia) ltac:(reflexivity)).
      replace (Z.to_nat _) with 0%nat by lia. reflexivity.
    + cbn [groups].
      rewrite IH; [|exact Hn|rewrite length_skipn; cbn [List.length] in *; lia].
      set (l := a :: items) in *.
      assert (Hl : 1 <= len l) by (unfold len, l; cbn [List.length]; lia).
      rewrite (ceil_div_step (len l) (Z.of_nat n)) by lia.
      assert (Hc : 0 <= ceil_div (len l - Z.of_nat n) (Z.of_nat n)).
      { unfold ceil_div.
        replace (len l - Z.of_nat n + Z.of_nat n - 1) with (len l - 1) by lia.
        apply Z.div_pos; lia. }
      assert (Hs : ceil_div (len (skipn n l)) (Z.of_nat n)
                   = ceil_div (len l - Z.of_nat n) (Z.of_nat n)).
      { destruct (Z_le_gt_dec (len l) (Z.of_nat n)) as [Hle|Hgt].
        - pose proof (ceil_div_nonpos (len l - Z.of_nat n) (Z.of_nat n)
                                      ltac:(lia) ltac:(lia)).
          rewrite skipn_all2 by (unfold len in Hle; lia).
          pose proof (ceil_div_nonpos (len (@nil A)) (Z.of_nat n)
                                      ltac:(lia) ltac:(reflexivity)).
          pose proof (ceil_div_bounds (len (@nil A)) (Z.of_nat n)
                                      ltac:(lia) ltac:(reflexivity)).
          lia.
        - f_equal. unfold len in *. rewrite length_skipn. lia. }
      rewrite Hs, Z2Nat.inj_add by lia.
      change (Z.to_nat 1) with 1%nat. cbn [Nat.add seq map].
      f_equal. rewrite <- seq_shift, map_map. apply map_ext.
      intros k. rewrite skipn_skipn. do 2 f_equal. lia.
Qed.

(** X1: for a positive batch size [chunk_list] partitions the sequence:
    flattening the groups gives the sequence back, there are
    [ceil(len/n)] groups, group [k] is [items[k*n : k*n+n]], no group is
    empty or longer than [n], and every group but the last has exactly
    [n] elements. *)
Theorem chunk_list_partition {A : Type} (items : list A) (n : Z) :
  0 < n ->
  exists gs : list (list A),
    chunk_list items n = Ok gs /\
    List.concat gs = items /\
    len gs = ceil_div (len items) n /\
    forall (k : nat) (g : list A),
      nth_error gs k = Some g ->
      g = py_slice items (Z.of_nat k * n) (Z.of_nat k * n + n) /\
      1 <= len g <= n /\
      ((S k < List.length gs)%nat -> len g = n).
Proof.
  intros Hn.
  destruct (chunk_list_concat items n Hn) as (gs & Hgs & Hcat).
  exists gs. split; [exact Hgs|]. split; [exact Hcat|].
  unfold chunk_list in Hgs.
  destruct (n =? 0) eqn:E0; [apply Z.eqb_eq in E0; lia|].
  destruct (n <? 0) eqn:E1; [apply Z.ltb_lt in E1; lia|].
  injection Hgs as Hgs.
  rewrite groups_closed in Hgs by lia. rewrite Z2Nat.id in Hgs by lia.
  pose proof (ceil_div_bounds (len items) n Hn (len_nonneg items))
    as (Hup & Hlow & Hm).
  assert (Hlen : List.length gs = Z.to_nat (ceil_div (len items) n))
    by (rewrite <- Hgs, length_map, length_seq; reflexivity).
  split; [unfold len at 1; lia|].
  intros k g Hk.
  assert (Hkm : (k < Z.to_nat (ceil_div (len items) n))%nat)
    by (rewrite <- Hlen; apply nth_error_Some; congruence).
  rewrite <- Hgs, nth_error_map, nth_error_seq in Hk.
  apply Nat.ltb_lt in Hkm. rewrite Hkm in Hk. apply Nat.ltb_lt in Hkm.
  cbn in Hk. injection Hk as <-.
  assert (Hg : firstn (Z.to_nat n) (skipn (k * Z.to_nat n) items)
               = py_slice items (Z.of_nat k * n) (Z.of_nat k * n + n)).
  { rewrite py_slice_nonneg by lia. do 2 f_equal. nia. }
  rewrite Hg. split; [reflexivity|].
  rewrite py_slice_length by lia. split; [nia|].
  intros Hlast. nia.
Qed.

(** An instance of X1: seven items in groups of three. *)
Lemma chunk_list_partition_witness :
  0 < 3 /\
  exists gs : list (list Z),
    chunk_list [1; 2; 3; 4; 5; 6; 7] 3 = Ok gs /\
    List.concat gs = [1; 2; 3; 4; 5; 6; 7] /\ len gs = 3.
Proof.
  split; [lia|].
  destruct (chunk_list_partition [1; 2; 3; 4; 5; 6; 7] 3 ltac:(lia))
    as (gs & E & Hc & Hl & _).
  exists gs. split; [exact E|]. split; [exact Hc|]. rewrite Hl. reflexivity.
Defined.

(** ** More on the chunker *)

Lemma window_nonneg (s : str) (size step : Z) (k : nat) :
  0 <= size -> 0 <= step ->
  window s size step 0 k =
  firstn (Z.to_nat size) (skipn (k * Z.to_nat step) s).
Proof.
  intros Hsize Hstep. unfold window. cbn [Z.add].
  rewrite py_slice_nonneg by lia. do 2 f_equal. nia.
Qed.

(** X2: with [0 <= overlap < size], the first [size - overlap] characters
    of the chunks are exactly the partition of the text into pieces of
    that length, so the text is recovered by concatenating them: no
    character is lost and none is out of order. *)
Theorem chunks_heads_partition (s : str) (size overlap : Z) :
  0 <= overlap < size ->
  let step := size - overlap in
  chunk_list s step
    = Ok (map (firstn (Z.to_nat step)) (chunks s size overlap)) /\
  List.concat (map (firstn (Z.to_nat step)) (chunks s size overlap)) = s.
Proof.
  intros Hov step.
  assert (Hstep : 0 < step) by (subst step; lia).
  assert (Hmax : Z.max 1 (size - overlap) = step) by (subst step; lia).
  assert (H : chunk_list s step
              = Ok (map (firstn (Z.to_nat step)) (chunks s size overlap))).
  { unfold chunk_list.
    destruct (step =? 0) eqn:E0; [apply Z.eqb_eq in E0; lia|].
    destruct (step <? 0) eqn:E1; [apply Z.ltb_lt in E1; lia|].
    f_equal. rewrite groups_closed by lia. rewrite Z2Nat.id by lia.
    rewrite chunks_closed, Hmax, map_map. apply map_ext. intros k.
    rewrite window_nonneg by lia.
    rewrite firstn_firstn. f_equal. subst step. lia. }
  split; [exact H|].
  destruct (chunk_list_concat s step Hstep) as (gs & Hgs & Hcat).
  rewrite H in Hgs. injection Hgs as <-. exact Hcat.
Qed.

(** An instance of X2. *)
Lemma chunks_heads_partition_witness :
  0 <= 2 < 5 /\
  List.concat (map (firstn 3) (chunks (lit "abcdefghij") 5 2)) = lit "abcdefghij".
Proof.
  split; [lia|].
  exact (proj2 (chunks_heads_partition (lit "abcdefghij") 5 2 ltac:(lia))).
Defined.

(** The length of the chunk at position [k], for valid parameters. *)
Lemma chunk_nth_length (s : str) (size overlap : Z) (k : nat) (c : str) :
  0 <= overlap < size ->
  nth_error (chunks s size overlap) k = Some c ->
  Z.of_nat k * (size - overlap) < len s /\
  c = firstn (Z.to_nat size) (skipn (k * Z.to_nat (size - overlap)) s) /\
  len c = Z.min size (len s - Z.of_nat k * (size - overlap)).
Proof.
  intros Hov Hk. set (step := size - overlap) in *.
  assert (Hstep : 0 < step) by (subst step; lia).
  assert (Hmax : Z.max 1 (size - overlap) = step) by (subst step; lia).
  pose proof (ceil_div_bounds (len s) step Hstep (len_nonneg s))
    as (Hup & Hlow & Hm).
  assert (Hkn : (k < Z.to_nat (ceil_div (len s) step))%nat).
  { assert (H : (k < List.length (chunks s size overlap))%nat)
      by (apply nth_error_Some; congruence).
    pose proof (chunks_length s size overlap) as Hl.
    rewrite Hmax in Hl. unfold len in Hl at 1. lia. }
  rewrite chunks_nth in Hk by (rewrite Hmax; exact Hkn).
  injection Hk as <-. rewrite Hmax.
  assert (Hks : Z.of_nat k * step < len s) by nia.
  split; [exact Hks|]. split; [apply window_nonneg; lia|].
  unfold window. cbn [Z.add]. rewrite py_slice_length by lia. lia.
Qed.

(** X3: with [0 <= overlap < size], chunk [k] has
    [min(size, len(s) - k*step)] characters: it is never empty, never
    longer than [size], and it is shorter than [size] only when it runs to
    the end of the text. *)
Theorem chunk_sizes (s : str) (size overlap : Z) (k : nat) (c : str) :
  0 <= overlap < size ->
  nth_error (chunks s size overlap) k = Some c ->
  let step := size - overlap in
  len c = Z.min size (len s - Z.of_nat k * step) /\
  1 <= len c <= size /\
  (len c < size -> Z.of_nat k * step + len c = len s).
Proof.
  intros Hov Hk step.
  destruct (chunk_nth_length s size overlap k c Hov Hk) as (Hks & _ & Hl).
  fold step in Hks, Hl. split; [exact Hl|]. split; lia.
Qed.

(** An instance of X3: the last chunk of a ten-letter text. *)
Lemma chunk_sizes_witness :
  0 <= 2 < 5 /\
  nth_error (chunks (lit "abcdefghij") 5 2) 3 = Some (lit "j") /\
  len (lit "j") = Z.min 5 (len (lit "abcdefghij") - 3 * (5 - 2)).
Proof.
  split; [lia|]. split; [reflexivity|].
  exact (proj1 (chunk_sizes (lit "abcdefghij") 5 2 3 (lit "j")
                            ltac:(lia) eq_refl)).
Defined.

(** X4: with [0 <= overlap < size], two consecutive chunks overlap: what
    chunk [k] holds after its first [size - overlap] characters is the
    beginning of chunk [k+1]; for a full chunk that is exactly [overlap]
    characters. *)
Theorem chunks_overlap (s : str) (size overlap : Z) (k : nat) (a b : str) :
  0 <= overlap < size ->
  nth_error (chunks s size overlap) k = Some a ->
  nth_error (chunks s size overlap) (S k) = Some b ->
  let step := Z.to_nat (size - overlap) in
  skipn step a = firstn (List.length a - step) b /\
  (len a = size -> len (skipn step a) = overlap).
Proof.
  intros Hov Ha Hb step.
  assert (Hstep : 0 < size - overlap) by lia.
  destruct (chunk_nth_length s size overlap k a Hov Ha) as (_ & Ha' & Hla).
  destruct (chunk_nth_length s size overlap (S k) b Hov Hb) as (_ & Hb' & _).
  fold step in Ha', Hb'. symmetry in Ha', Hb'.
  rename Ha' into Ea. rename Hb' into Eb.
  split.
  - rewrite <- Eb, <- Ea at 1.
    rewrite skipn_firstn_comm, skipn_skipn, firstn_firstn.
    replace (step + k * step)%nat with (S k * step)%nat by lia.
    set (rest := skipn (S k * step) s).
    assert (Hrest : List.length rest = (List.length s - S k * step)%nat)
      by (unfold rest; apply length_skipn).
    unfold len in Hla.
    destruct (Z_le_gt_dec size (Z.of_nat (List.length s) - Z.of_nat k * (size - overlap)))
      as [Hfull|Hshort].
    + f_equal. subst step. lia.
    + rewrite !firstn_all2; [reflexivity| |]; subst step; nia.
  - intros Hfull. unfold len in *. rewrite length_skipn. subst step. lia.
Qed.

(** An instance of X4. *)
Lemma chunks_overlap_witness :
  0 <= 2 < 5 /\
  nth_error (chunks (lit "abcdefghij") 5 2) 0 = Some (lit "abcde") /\
  nth_error (chunks (lit "abcdefghij") 5 2) 1 = Some (lit "defgh") /\
  skipn 3 (lit "abcde") = firstn 2 (lit "defgh").
Proof.
  split; [lia|]. split; [reflexivity|]. split; [reflexivity|].
  exact (proj1 (chunks_overlap (lit "abcdefghij") 5 2 0 (lit "abcde") (lit "defgh")
                               ltac:(lia) eq_refl eq_refl)).
Defined.

(** X5: when the overlap is not below the size, the step is clamped to
    one: the chunker emits one chunk per character of the text, chunk [k]
    being [s[k:k+size]]. *)
Theorem chunks_degenerate (s : str) (size overlap : Z) :
  size <= overlap ->
  len (chunks s size overlap) = len s /\
  forall k : nat,
    (k < List.length s)%nat ->
    nth_error (chunks s size overlap) k
    = Some (py_slice s (Z.of_nat k) (Z.of_nat k + size)).
Proof.
  intros Hov.
  assert (Hmax : Z.max 1 (size - overlap) = 1) by lia.
  assert (Hc : ceil_div (len s) 1 = len s)
    by (unfold ceil_div; rewrite Z.div_1_r; lia).
  split.
  - now rewrite chunks_length, Hmax.
  - intros k Hk. rewrite chunks_nth by (rewrite Hmax, Hc; unfold len; lia).
    rewrite Hmax. unfold window. do 2 f_equal; lia.
Qed.

(** An instance of X5: a chunk size of 128 with an overlap of 500. *)
Lemma chunks_degenerate_witness :
  128 <= 500 /\ len (chunks (repeat "a"%char 300) 128 500) = 300.
Proof.
  split; [lia|].
  rewrite (proj1 (chunks_degenerate (repeat "a"%char 300) 128 500 ltac:(lia))).
  reflexivity.
Defined.

(** ** More on the runtime configuration *)

Lemma config_ext (a b : Config) :
  EMBED_BATCH a = EMBED_BATCH b -> UPSERT_BATCH a = UPSERT_BATCH b ->
  CHUNK_SIZE a = CHUNK_SIZE b -> CHUNK_OVERLAP a = CHUNK_OVERLAP b -> a = b.
Proof. destruct a, b; cbn; congruence. Qed.

(** X6: a patch request is idempotent: sending it a second time changes
    nothing, whatever was accepted or dropped the first time. *)
Theorem set_config_idempotent (p : ConfigPatch) (rt : Config) :
  snd (set_config p (snd (set_config p rt))) = snd (set_config p rt) /\
  fst (set_config p (snd (set_config p rt))) = fst (set_config p rt).
Proof.
  assert (H : snd (set_config p (snd (set_config p rt))) = snd (set_config p rt)).
  { destruct (set_config_fields p rt) as (A1 & A2 & A3 & A4).
    destruct (set_config_fields p (snd (set_config p rt))) as (B1 & B2 & B3 & B4).
    cbv zeta in *.
    assert (Hcs : CHUNK_SIZE (snd (set_config p (snd (set_config p rt))))
                  = CHUNK_SIZE (snd (set_config p rt))).
    { rewrite B3. destruct (p_CHUNK_SIZE p) as [v|] eqn:Ep; [|reflexivity].
      destruct (128 <=? v) eqn:E; [|reflexivity]. congruence. }
    apply config_ext.
    - rewrite B1. destruct (p_EMBED_BATCH p) as [v|] eqn:Ep; [|reflexivity].
      destruct (0 <? v) eqn:E; [|reflexivity]. congruence.
    - rewrite B2. destruct (p_UPSERT_BATCH p) as [v|] eqn:Ep; [|reflexivity].
      destruct (0 <? v) eqn:E; [|reflexivity]. congruence.
    - exact Hcs.
    - rewrite B4, Hcs. destruct (p_CHUNK_OVERLAP p) as [v|] eqn:Ep; [|reflexivity].
      destruct ((0 <=? v) && (v <? CHUNK_SIZE (snd (set_config p rt)))) eqn:E;
        [|reflexivity].
      congruence. }
  split; [exact H|].
  unfold set_config in *. cbn [fst snd] in *. now rewrite H.
Qed.

(** X7: from a valid configuration, a patch request gives a valid
    configuration except in one case, and exactly in that case it gives
    an invalid one: it carries a [CHUNK_SIZE] of at least 128 that is not
    above the current overlap, without a [CHUNK_OVERLAP] that is valid
    for this new size. *)
Theorem set_config_valid_iff (p : ConfigPatch) (rt : Config) :
  config_valid rt ->
  (config_valid (snd (set_config p rt)) <->
   forall v : Z,
     p_CHUNK_SIZE p = Some v -> 128 <= v -> v <= CHUNK_OVERLAP rt ->
     exists o : Z, p_CHUNK_OVERLAP p = Some o /\ 0 <= o < v).
Proof.
  intros (Hcs & Hco & Heb & Hub).
  pose proof (set_config_lower_bounds p rt
                (conj Hcs (conj (proj1 Hco) (conj Heb Hub))))
    as (L1 & L2 & L3 & L4).
  destruct (set_config_fields p rt) as (_ & _ & A3 & A4). cbv zeta in *.
  set (rt' := snd (set_config p rt)) in *.
  split.
  - intros (_ & (_ & Hlt) & _) v Hv H128 Hle.
    rewrite Hv in A3. apply Z.leb_le in H128. rewrite H128 in A3.
    rewrite A3 in A4, Hlt.
    destruct (p_CHUNK_OVERLAP p) as [o|]; [|exfalso; lia].
    destruct (0 <=? o) eqn:E1; cbn [andb] in A4; [|exfalso; lia].
    destruct (o <? v) eqn:E2; [|exfalso; lia].
    apply Z.leb_le in E1. apply Z.ltb_lt in E2. exists o. split; [reflexivity|lia].
  - intros H. unfold config_valid. repeat split; try assumption.
    destruct (p_CHUNK_OVERLAP p) as [o|] eqn:Eo.
    + destruct (0 <=? o) eqn:E1; cbn [andb] in A4.
      * destruct (o <? CHUNK_SIZE rt') eqn:E2.
        -- apply Z.ltb_lt in E2. lia.
        -- rewrite A4. clear A4.
           destruct (p_CHUNK_SIZE p) as [v|]; [|lia].
           destruct (128 <=? v) eqn:E3; [|lia].
           apply Z.leb_le in E3. rewrite A3 in *.
           destruct (Z_le_gt_dec v (CHUNK_OVERLAP rt)) as [Hle|Hgt]; [|lia].
           destruct (H v eq_refl E3 Hle) as (o' & Ho' & Hv).
           injection Ho' as <-. apply Z.ltb_ge in E2. lia.
      * rewrite A4. clear A4.
        destruct (p_CHUNK_SIZE p) as [v|]; [|lia].
        destruct (128 <=? v) eqn:E3; [|lia].
        apply Z.leb_le in E3. rewrite A3 in *.
        destruct (Z_le_gt_dec v (CHUNK_OVERLAP rt)) as [Hle|Hgt]; [|lia].
        destruct (H v eq_refl E3 Hle) as (o' & Ho' & Hv).
        injection Ho' as <-. apply Z.leb_gt in E1. lia.
    + rewrite A4. clear A4.
      destruct (p_CHUNK_SIZE p) as [v|]; [|lia].
      destruct (128 <=? v) eqn:E3; [|lia].
      apply Z.leb_le in E3. rewrite A3 in *.
      destruct (Z_le_gt_dec v (CHUNK_OVERLAP rt)) as [Hle|Hgt]; [|lia].
      destruct (H v eq_refl E3 Hle) as (o' & Ho' & _). discriminate.
Qed.

(** An instance of X7: the default configuration and a request that
    lowers the chunk size to 128 (above the overlap of 120). *)
Lemma set_config_valid_iff_witness :
  config_valid RUNTIME_default /\
  config_valid (snd (set_config patch_size_128 RUNTIME_default)).
Proof.
  assert (H : config_valid RUNTIME_default) by (unfold config_valid; cbn; lia).
  split; [exact H|].
  apply (proj2 (set_config_valid_iff patch_size_128 RUNTIME_default H)).
  intros v Hv _ Hle. injection Hv as <-. cbn in Hle. lia.
Defined.

(** ** The collection at startup *)

Section StartupFacts.
Context {C : Collab}.

Lemma collection_present (name : str) (cols : list (str * nat)) :
  existsb (str_eqb name) (map fst cols) = true <->
  collection_dim name cols <> None.
Proof.
  unfold collection_dim. induction cols as [|c cols IH]; cbn.
  - split; [discriminate|congruence].
  - destruct (str_eqb name (fst c)); cbn; [|exact IH].
    split; [discriminate|reflexivity].
Qed.

Lemma str_eqb_eq (a b : str) : str_eqb a b = true <-> a = b.
Proof.
  unfold str_eqb. destruct (list_eq_dec ascii_dec a b); split;
    congruence || discriminate.
Qed.

Lemma find_filter_other (name other : str) (cols : list (str * nat)) :
  name <> other ->
  find (fun c => str_eqb name (fst c))
       (filter (fun c => negb (str_eqb (fst c) other)) cols)
  = find (fun c => str_eqb name (fst c)) cols.
Proof.
  intros Hne. induction cols as [|c cols IH]; [reflexivity|].
  cbn [filter find]. destruct (str_eqb (fst c) other) eqn:Ec; cbn [negb].
  - apply str_eqb_eq in Ec.
    assert (Hc2 : str_eqb name (fst c) = false).
    { destruct (str_eqb name (fst c)) eqn:Ec2; [|reflexivity].
      apply str_eqb_eq in Ec2. congruence. }
    rewrite Hc2. exact IH.
  - cbn [find]. destruct (str_eqb name (fst c)); [reflexivity|exact IH].
Qed.

Lemma get_collections_spec (w w' : World) (r : Res (list str)) :
  get_collections w = (r, w') ->
  same_process w w' /\
  forall names : list str, r = Ok names -> names = map fst (collections w).
Proof.
  unfold get_collections. intros E. step_bind E u w1 E1;
    apply call_same_process in E1 as (Hs & _).
  - injection E as <- <-. split; [exact Hs|].
    intros names Hn. injection Hn as <-. destruct Hs as (_ & -> & _). reflexivity.
  - injection E as <- <-. split; [exact Hs|discriminate].
Qed.

(** What [ensure_collection] does to the world. *)
Lemma ensure_collection_cases (dim : nat) (w w' : World) (r : Res unit) :
  ensure_collection dim w = (r, w') ->
  upserted w' = upserted w /\ RUNTIME w' = RUNTIME w /\
  (collection_dim COLL (collections w) <> None ->
   collections w' = collections w) /\
  (collection_dim COLL (collections w) = None ->
   (r = Ok tt /\
    collections w'
    = (COLL, dim) :: filter (fun c => negb (str_eqb (fst c) COLL)) (collections w))
   \/ (r <> Ok tt /\ collections w' = collections w)).
Proof.
  unfold ensure_collection. intros E.
  step_bind E names w1 E1; apply get_collections_spec in E1 as ((A1 & A2 & A3) & Hn).
  2:{ injection E as <- <-. rewrite A2.
      repeat split; try assumption. intros _. right. split; [discriminate|reflexivity]. }
  specialize (Hn names eq_refl). subst names.
  destruct (existsb (str_eqb COLL) (map fst (collections w))) eqn:Ex.
  - unfold ret in E. injection E as <- <-. rewrite A2.
    repeat split; try assumption.
    intros Hnone. apply collection_present in Ex. contradiction.
  - unfold recreate_collection in E.
    step_bind E u w2 E2; apply call_same_process in E2 as ((B1 & B2 & B3) & _).
    + injection E as <- <-. cbn [collections upserted RUNTIME].
      rewrite B2, A2, B3, A3, B1, A1.
      split; [reflexivity|]. split; [reflexivity|].
      split.
      * intros H. exfalso. apply collection_present in H. congruence.
      * intros _. left. destruct u. split; reflexivity.
    + injection E as <- <-. rewrite B2, A2, B3, A3, B1, A1.
      split; [reflexivity|]. split; [reflexivity|]. split; [reflexivity|].
      intros _. right. split; [discriminate|reflexivity].
Qed.

Lemma collection_dim_created (name : str) (dim : nat) (cols : list (str * nat)) :
  collection_dim name
    ((name, dim) :: filter (fun c => negb (str_eqb (fst c) name)) cols)
  = Some dim.
Proof.
  unfold collection_dim. cbn [find fst].
  assert (Hc : str_eqb name name = true) by (now apply str_eqb_eq).
  now rewrite Hc.
Qed.

(** X8: [ensure_collection] creates the collection only when the store
    has none of that name, with the size it is given; a collection that
    exists is left as it is whatever size is asked for, so a second call
    changes nothing; other collections and the stored points are never
    touched. *)
Theorem ensure_collection_only_creates (dim : nat) (w w' : World) (r : Res unit) :
  ensure_collection dim w = (r, w') ->
  (collection_dim COLL (collections w) <> None ->
   collections w' = collections w) /\
  (collection_dim COLL (collections w) = None -> r = Ok tt ->
   collection_dim COLL (collections w') = Some dim) /\
  (forall name : str,
      name <> COLL ->
      collection_dim name (collections w') = collection_dim name (collections w)) /\
  upserted w' = upserted w /\ RUNTIME w' = RUNTIME w.
Proof.
  intros E. apply ensure_collection_cases in E as (Hu & Hr & Hkeep & Hnew).
  split; [exact Hkeep|]. split; [|split; [|split; assumption]].
  - intros Hnone Hok. destruct (Hnew Hnone) as [(_ & ->)|(Hne & _)];
      [apply collection_dim_created|contradiction].
  - intros name Hname.
    destruct (collection_dim COLL (collections w)) eqn:Ed.
    + rewrite Hkeep by discriminate. reflexivity.
    + destruct (Hnew eq_refl) as [(_ & ->)|(_ & ->)]; [|reflexivity].
      unfold collection_dim. cbn [find fst].
      assert (Hc : str_eqb name COLL = false).
      { destruct (str_eqb name COLL) eqn:Ec; [|reflexivity].
        apply str_eqb_eq in Ec. contradiction. }
      rewrite Hc. f_equal. apply find_filter_other, Hname.
Qed.

(** X9: the startup hook fixes the vector size only when it creates the
    collection.  If the store already has the collection, its size is
    what it was, whatever the probe returns; if it has none and the hook
    returns, the size is the length of the probe's vector; if the probe
    raises, the hook raises the same exception and the store is not
    contacted. *)
Theorem startup_dimension (w w' : World) (r : Res unit) :
  _start w = (r, w') ->
  (forall d : nat,
      collection_dim COLL (collections w) = Some d ->
      collection_dim COLL (collections w') = Some d) /\
  (collection_dim COLL (collections w) = None -> r = Ok tt ->
   exists (v : vec) (o : remote),
     post_embeddings (lit "dimension probe") (outside w) = (Ok v, o) /\
     collection_dim COLL (collections w') = Some (List.length v)) /\
  (forall (e : exn) (o : remote),
      post_embeddings (lit "dimension probe") (outside w) = (Raise e, o) ->
      r = Raise e /\ w' = set_outside w o).
Proof.
  unfold _start, embed. intros E.
  step_bind E v w1 E1; apply call_same_process in E1 as ((A1 & A2 & A3) & Hp).
  - apply ensure_collection_cases in E as (_ & _ & Hk & Hc).
    rewrite A2 in Hk, Hc.
    split; [intros d Hd; rewrite Hk; congruence|].
    split.
    + intros Hnone Hr. exists v, (outside w1). split; [exact Hp|].
      destruct (Hc Hnone) as [(_ & ->)|(Hne & _)];
        [apply collection_dim_created|contradiction].
    + intros e o Ho. rewrite Ho in Hp. discriminate.
  - injection E as <- <-.
    split; [intros d Hd; now rewrite A2|].
    split; [discriminate|].
    intros e o Ho. rewrite Ho in Hp. injection Hp as <- ->.
    split; [reflexivity|].
    destruct w, w1; cbn in *. now subst.
Qed.


End StartupFacts.

(** An instance of X8: a store that has the collection with size 768 is
    asked for size 4. *)
Lemma ensure_collection_only_creates_witness :
  collection_dim COLL (collections (example_world_existing 4)) <> None /\
  collections (snd (@ensure_collection (example_collab 4) 4 (example_world_existing 4)))
  = [(COLL, 768%nat)].
Proof.
  assert (H : collection_dim COLL (collections (example_world_existing 4)) <> None)
    by (vm_compute; discriminate).
  split; [exact H|].
  destruct (@ensure_collection (example_collab 4) 4 (example_world_existing 4))
    as [r w'] eqn:E.
  apply (@ensure_collection_only_creates (example_collab 4)) in E as (Hk & _).
  cbn [snd]. rewrite (Hk H). reflexivity.
Defined.

(** An instance of X9: a model of 384 dimensions started against a store
    whose collection has size 768. *)
Lemma startup_dimension_witness :
  collection_dim COLL (collections (example_world_existing 384)) = Some 768%nat /\
  collection_dim COLL
    (collections (snd (@_start (example_collab 384) (example_world_existing 384))))
  = Some 768%nat.
Proof.
  split; [reflexivity|].
  destruct (@_start (example_collab 384) (example_world_existing 384))
    as [r w'] eqn:E.
  apply (@startup_dimension (example_collab 384)) in E as (Hk & _).
  cbn [snd]. apply Hk. reflexivity.
Defined.

(** ** More on the embedding client *)

Section EmbedMore.
Context {C : Collab}.

(** X10: blank texts never reach the embedding service.  On a list of
    blank or whitespace-only texts [embed_batch] returns one zero vector
    per text and leaves the outside world as it was; it cannot fail. *)
Theorem embed_batch_blank_offline (text_list : list str) (w : World) :
  Forall (fun t => nonblank t = false) text_list ->
  embed_batch text_list w
  = (Ok (repeat zero_vector (List.length text_list)), w).
Proof.
  intros H. rewrite embed_batch_each.
  induction H as [|t rest Ht _ IH]; [reflexivity|].
  cbn [embed_each List.length repeat]. rewrite Ht.
  rewrite (bind_ok _ _ w w zero_vector) by reflexivity.
  rewrite (bind_ok _ _ _ _ _ IH). reflexivity.
Qed.


(** X12: the first failing call aborts the batch.  If the texts before
    [t] were embedded and the service raises on the non-blank text [t],
    [embed_batch] raises that exception: the vectors obtained so far are
    dropped and the texts after [t] are not sent. *)
Theorem embed_batch_first_failure (l1 l2 : list str) (t : str)
        (w w1 : World) (v1 : list vec) (e : exn) (o : remote) :
  embed_batch l1 w = (Ok v1, w1) ->
  nonblank t = true ->
  post_embeddings t (outside w1) = (Raise e, o) ->
  embed_batch (l1 ++ t :: l2) w = (Raise e, set_outside w1 o).
Proof.
  intros E1 Ht Ho. rewrite embed_batch_each in E1 |- *.
  rewrite embed_each_app, E1.
  cbn [embed_each]. rewrite Ht, bind_run. unfold call. now rewrite Ho.
Qed.

End EmbedMore.

(** An instance of X10. *)
Lemma embed_batch_blank_offline_witness :
  Forall (fun t => nonblank t = false) [lit "  "; []] /\
  @embed_batch (example_collab 4) [lit "  "; []] (example_world 4)
  = (Ok [zero_vector; zero_vector], example_world 4).
Proof.
  assert (H : Forall (fun t => nonblank t = false) [lit "  "; []])
    by (repeat constructor).
  split; [exact H|].
  exact (@embed_batch_blank_offline (example_collab 4) _ (example_world 4) H).
Defined.

(** An instance of X12: the service of [failing_collab] refuses the text
    ["boom"]. *)
Lemma embed_batch_first_failure_witness :
  @embed_batch failing_collab [lit "ok"] failing_world
    = (Ok [repeat 1%float 4], @set_outside failing_collab failing_world 1%nat) /\
  nonblank (lit "boom") = true /\
  @post_embeddings failing_collab (lit "boom") 1%nat
    = (Raise (LibraryError "503"), 2%nat) /\
  @embed_batch failing_collab [lit "ok"; lit "boom"; lit "later"] failing_world
    = (Raise (LibraryError "503"), @set_outside failing_collab failing_world 2%nat).
Proof.
  split; [reflexivity|]. split; [reflexivity|]. split; [reflexivity|].
  exact (@embed_batch_first_failure failing_collab [lit "ok"] [lit "later"]
           (lit "boom") failing_world
           (@set_outside failing_collab failing_world 1%nat)
           [repeat 1%float 4] (LibraryError "503") 2%nat
           eq_refl eq_refl eq_refl).
Defined.

(** ** What ingestion leaves untouched *)

Section FrameFacts.
Context {C : Collab}.

Lemma store_loop_frame (ep : entry_point) (batches : list (list str)) :
  forall (meta : list Meta) (total_points : nat) (w w' : World) (r : Res nat),
    store_loop ep batches meta total_points w = (r, w') ->
    RUNTIME w' = RUNTIME w /\ collections w' = collections w /\
    exists new : list PointStruct, upserted w' = upserted w ++ new.
Proof.
  induction batches as [|b rest IH]; intros meta total w w' r E.
  - cbn in E. unfold ret in E. injection E as <- <-.
    repeat split. exists []. now rewrite app_nil_r.
  - cbn [store_loop] in E.
    step_bind E vecs w1 E1; apply embed_batch_spec in E1 as ((A1 & A2 & A3) & _).
    2:{ injection E as <- <-. repeat split; try assumption.
        exists []. now rewrite app_nil_r. }
    step_bind E pts w2 E2; apply make_points_spec in E2 as ((B1 & B2 & B3) & _).
    2:{ injection E as <- <-. repeat split; try congruence.
        exists []. rewrite app_nil_r. congruence. }
    unfold read_runtime in E at 1. rewrite bind_run in E.
    step_bind E ups w3 E3; apply lift_res_run in E3 as (_ & ->).
    2:{ injection E as <- <-. repeat split; try congruence.
        exists []. rewrite app_nil_r. congruence. }
    step_bind E n1 w4 E4;
      apply upsert_loop_spec in E4 as (D1 & D2 & done & rem & _ & Hu & _).
    2:{ injection E as <- <-. repeat split; try congruence.
        exists done. congruence. }
    apply IH in E as (F1 & F2 & new & Hn).
    repeat split; try congruence.
    exists (done ++ new). rewrite Hn, Hu, app_assoc. congruence.
Qed.

Lemma store_chunks_frame (ep : entry_point) (all_chunks : list str)
      (meta : list Meta) (w w' : World) (r : Res nat) :
  store_chunks ep all_chunks meta w = (r, w') ->
  RUNTIME w' = RUNTIME w /\ collections w' = collections w /\
  exists new : list PointStruct, upserted w' = upserted w ++ new.
Proof.
  unfold store_chunks. intros E.
  unfold read_runtime in E at 1. rewrite bind_run in E.
  step_bind E bs w1 E1; apply lift_res_run in E1 as (_ & ->).
  - now apply store_loop_frame in E.
  - injection E as <- <-. repeat split. exists []. now rewrite app_nil_r.
Qed.

(** The first loop of [ingest] does not change the world. *)
Lemma ingest_read_world (files : list UploadFile) (proj : str) :
  forall (cs : list str) (ms : list Meta) (w w' : World)
         (r : Res (list str * list Meta)),
    ingest_read files proj cs ms w = (r, w') -> w' = w.
Proof.
  induction files as [|f rest IH]; intros cs ms w w' r E.
  - cbn in E. unfold ret in E. now injection E as <- <-.
  - cbn [ingest_read] in E. rewrite bind_run, ingest_bytes_spec in E.
    destruct (extract_text _ _ _) as [t|e].
    + cbv zeta in E. now apply IH in E.
    + now injection E as <- <-.
Qed.

(** X13: whatever the request and whatever the outcome, [ingest] and
    [ingest_urls] leave the runtime configuration and the collections as
    they were, and the points handed to the store before the call are
    still there, in the same order, followed by those of this call:
    nothing is rolled back when a call fails half-way. *)
Theorem ingestion_only_appends :
  (forall (files : list UploadFile) (proj : str) (w w' : World)
          (r : Res IngestResponse),
      ingest files proj w = (r, w') ->
      RUNTIME w' = RUNTIME w /\ collections w' = collections w /\
      exists new : list PointStruct, upserted w' = upserted w ++ new) /\
  (forall (body : UrlIngest) (w w' : World) (r : Res UrlResponse),
      ingest_urls body w = (r, w') ->
      RUNTIME w' = RUNTIME w /\ collections w' = collections w /\
      exists new : list PointStruct, upserted w' = upserted w ++ new).
Proof.
  split.
  - intros files proj w w' r E. unfold ingest in E.
    step_bind E acc w1 E1; apply ingest_read_world in E1; subst w1.
    + step_bind E n w2 E2; apply store_chunks_frame in E2.
      * unfold ret in E. now injection E as <- <-.
      * now injection E as <- <-.
    + injection E as <- <-. repeat split. exists []. now rewrite app_nil_r.
  - intros body w w' r E. unfold ingest_urls in E.
    rewrite bind_run, fetch_urls_spec in E.
    step_bind E n w2 E2; apply store_chunks_frame in E2.
    + unfold ret in E. now injection E as <- <-.
    + now injection E as <- <-.
Qed.

End FrameFacts.

(** ** End-to-end upload ingestion *)

Section UploadFacts.
Context {C : Collab}.

(** The first loop of [ingest] when every extraction returns. *)
Lemma ingest_read_spec (proj : str) (files : list UploadFile) :
  forall (cs : list str) (ms : list Meta) (w : World),
    (forall f : UploadFile, In f files -> upload_doc (RUNTIME w) f <> None) ->
    ingest_read files proj cs ms w =
    (Ok (cs ++ flat_map doc_chunks (successes (map (upload_doc (RUNTIME w)) files)),
         ms ++ flat_map (doc_meta proj)
                        (successes (map (upload_doc (RUNTIME w)) files))),
     w).
Proof.
  induction files as [|f rest IH]; intros cs ms w Hok.
  - cbn. unfold ret. now rewrite !app_nil_r.
  - cbn [ingest_read]. rewrite bind_run, ingest_bytes_spec.
    pose proof (Hok f (or_introl eq_refl)) as Hf.
    cbn [map successes].
    destruct (extract_text (Some (filename f)) (Some (or_empty (content_type f)))
                           (content f)) as [t|e] eqn:Ex;
      [|exfalso; apply Hf; unfold upload_doc; now rewrite Ex].
    assert (Hd : upload_doc (RUNTIME w) f
                 = Some (filename f,
                         chunks t (CHUNK_SIZE (RUNTIME w)) (CHUNK_OVERLAP (RUNTIME w))))
      by (unfold upload_doc; now rewrite Ex).
    rewrite Hd. cbv zeta. cbn [fst snd successes flat_map].
    rewrite IH by (intros g Hg; apply Hok; now right).
    unfold doc_chunks at 2, doc_meta at 2. cbn [fst snd].
    now rewrite <- !app_assoc.
Qed.

Lemma flat_map_doc_lengths (proj : str) (ds : list (str * list str)) :
  List.length (flat_map (doc_meta proj) ds)
  = List.length (flat_map doc_chunks ds).
Proof.
  induction ds as [|d ds IH]; [reflexivity|].
  cbn [flat_map]. rewrite !length_app, IH. unfold doc_meta, doc_chunks.
  now rewrite length_map.
Qed.

(** X14: an upload request for any number of files, while the services
    answer, the batch sizes are positive and every extraction returns:
    the response is [ok], lists every file name in order and counts the
    chunks of all files; the store has received exactly the chunks of the
    files, in file order, each with the project of the request, the name
    of its own file and the embedding of its own text. *)
Theorem ingest_end_to_end (files : list UploadFile) (proj : str) (w : World) :
  services_up ->
  0 < EMBED_BATCH (RUNTIME w) -> 0 < UPSERT_BATCH (RUNTIME w) ->
  (forall f : UploadFile, In f files -> upload_doc (RUNTIME w) f <> None) ->
  let docs := successes (map (upload_doc (RUNTIME w)) files) in
  List.length docs = List.length files /\
  exists (resp : IngestResponse) (w' : World) (new : list PointStruct),
    ingest files proj w = (Ok resp, w') /\
    ir_ok resp = true /\ ir_project resp = proj /\
    ir_files resp = map filename files /\
    ir_chunks resp = List.length (flat_map doc_chunks docs) /\
    upserted w' = upserted w ++ new /\
    List.length new = List.length (flat_map doc_chunks docs) /\
    forall (k : nat) (p : PointStruct),
      nth_error new k = Some p ->
      nth_error (flat_map doc_chunks docs) k = Some (text (payload p)) /\
      nth_error (flat_map (doc_meta proj) docs) k = Some (meta_of p) /\
      embedding_of (text (payload p)) (vector p).
Proof.
  intros Hup Heb Hub Hok docs. split.
  { subst docs. clear Heb Hub. induction files as [|f rest IH]; [reflexivity|].
    cbn [map successes].
    destruct (upload_doc (RUNTIME w) f) eqn:Ef;
      [|exfalso; apply (Hok f (or_introl eq_refl)); exact Ef].
    cbn [List.length]. f_equal. apply IH. intros g Hg. apply Hok. now right. }
  unfold ingest. rewrite bind_run, (ingest_read_spec proj files [] [] w Hok).
  fold docs. cbn [fst snd app].
  pose proof (flat_map_doc_lengths proj docs) as Hlen.
  destruct (store_chunks_returns Ingest (flat_map doc_chunks docs)
              (flat_map (doc_meta proj) docs) w Hup Heb Hub ltac:(lia))
    as (n & w' & E).
  rewrite (bind_ok _ _ _ _ _ E). unfold ret.
  apply store_chunks_spec in E as (_ & _ & new & Hu & Hal & Hn);
    [|exact Heb|exact Hub|lia].
  destruct (Hn n eq_refl) as (-> & Hl).
  exists (mkIngestResponse true proj (List.length (flat_map doc_chunks docs))
                           (map filename files)), w', new.
  split; [reflexivity|]. split; [reflexivity|]. split; [reflexivity|].
  split; [reflexivity|]. split; [reflexivity|]. split; [exact Hu|].
  split; [exact Hl|]. exact Hal.
Qed.

(** X15: a document whose text is empty adds no chunk.  An upload request
    all of whose files have an empty text returns [ok] with [chunks = 0]
    and the file names, without contacting the embedding service or the
    store (the world is unchanged), as long as [EMBED_BATCH] is not
    zero. *)
Theorem ingest_empty_documents (files : list UploadFile) (proj : str) (w : World) :
  (forall f : UploadFile,
      In f files ->
      extract_text (Some (filename f)) (Some (or_empty (content_type f)))
                   (content f) = Ok []) ->
  EMBED_BATCH (RUNTIME w) <> 0 ->
  ingest files proj w
  = (Ok (mkIngestResponse true proj 0 (map filename files)), w).
Proof.
  intros Hempty Heb.
  assert (Hread : forall cs ms,
             ingest_read files proj cs ms w = (Ok (cs, ms), w)).
  { induction files as [|f rest IH]; intros cs ms; [reflexivity|].
    cbn [ingest_read]. rewrite bind_run, ingest_bytes_spec.
    rewrite (Hempty f (or_introl eq_refl)). cbv zeta.
    change (chunks [] (CHUNK_SIZE (RUNTIME w)) (CHUNK_OVERLAP (RUNTIME w)))
      with (@nil str).
    cbn [map fst snd]. rewrite !app_nil_r.
    apply IH. intros g Hg. apply Hempty. now right. }
  unfold ingest. rewrite bind_run, Hread. cbn [fst snd].
  unfold store_chunks, read_runtime. rewrite !bind_run.
  unfold chunk_list.
  destruct (EMBED_BATCH (RUNTIME w) =? 0) eqn:E0;
    [apply Z.eqb_eq in E0; contradiction|].
  destruct (EMBED_BATCH (RUNTIME w) <? 0); reflexivity.
Qed.

(** X16: the second half of every ingestion entry point with a
    non-positive [EMBED_BATCH] (which only the environment can set): with
    zero it raises [ValueError] and with a negative value it returns 0,
    and in both cases nothing is embedded or sent to the store, however
    many chunks there are. *)
Theorem store_chunks_bad_embed_batch (ep : entry_point) (all_chunks : list str)
        (meta : list Meta) (w : World) :
  (EMBED_BATCH (RUNTIME w) = 0 ->
   store_chunks ep all_chunks meta w
   = (Raise (ValueError "range() arg 3 must not be zero"), w)) /\
  (EMBED_BATCH (RUNTIME w) < 0 ->
   store_chunks ep all_chunks meta w = (Ok 0%nat, w)).
Proof.
  split; intros H; unfold store_chunks, read_runtime; rewrite !bind_run;
    unfold chunk_list.
  - now rewrite H.
  - destruct (EMBED_BATCH (RUNTIME w) =? 0) eqn:E0;
      [apply Z.eqb_eq in E0; lia|].
    apply Z.ltb_lt in H. now rewrite H.
Qed.

End UploadFacts.

(** An instance of X14: the upload of 1480 letters and the upload of
    three spaces in one request. *)
Lemma ingest_end_to_end_witness :
  @services_up (example_collab 768) /\
  0 < EMBED_BATCH (RUNTIME (example_world 768)) /\
  0 < UPSERT_BATCH (RUNTIME (example_world 768)) /\
  (forall f : UploadFile,
      In f [upload_1480; upload_blank] ->
      @upload_doc (example_collab 768) (RUNTIME (example_world 768)) f <> None) /\
  exists (resp : IngestResponse) (w' : @World (example_collab 768)),
    @ingest (example_collab 768) [upload_1480; upload_blank] (lit "default")
            (example_world 768) = (Ok resp, w') /\
    ir_chunks resp = 4%nat.
Proof.
  assert (Hup : @services_up (example_collab 768)) by (split; intros; reflexivity).
  assert (Hok : forall f : UploadFile,
             In f [upload_1480; upload_blank] ->
             @upload_doc (example_collab 768) (RUNTIME (example_world 768)) f <> None).
  { intros f [<-|[<-|[]]]; vm_compute; discriminate. }
  split; [exact Hup|]. split; [reflexivity|]. split; [reflexivity|].
  split; [exact Hok|].
  destruct (@ingest_end_to_end (example_collab 768) [upload_1480; upload_blank]
              (lit "default") (example_world 768) Hup eq_refl eq_refl Hok)
    as (_ & resp & w' & new & E & _ & _ & _ & Hc & _).
  exists resp, w'. split; [exact E|]. rewrite Hc. vm_compute. reflexivity.
Defined.

(** An instance of X15: an empty [.txt] upload. *)
Lemma ingest_empty_documents_witness :
  (forall f : UploadFile,
      In f [upload_empty] ->
      @extract_text (example_collab 4) (Some (filename f))
                    (Some (or_empty (content_type f))) (content f) = Ok []) /\
  EMBED_BATCH (RUNTIME (example_world 4)) <> 0 /\
  @ingest (example_collab 4) [upload_empty] (lit "default") (example_world 4)
  = (Ok (mkIngestResponse true (lit "default") 0 [lit "empty.txt"]),
     example_world 4).
Proof.
  assert (H : forall f : UploadFile,
             In f [upload_empty] ->
             @extract_text (example_collab 4) (Some (filename f))
                           (Some (or_empty (content_type f))) (content f) = Ok [])
    by (intros f [<-|[]]; reflexivity).
  assert (Hne : EMBED_BATCH (RUNTIME (example_world 4)) <> 0) by discriminate.
  split; [exact H|]. split; [exact Hne|].
  exact (@ingest_empty_documents (example_collab 4) [upload_empty] (lit "default")
                                 (example_world 4) H Hne).
Defined.

(** An instance of X16: [EMBED_BATCH=-1] in the environment. *)
Lemma store_chunks_bad_embed_batch_witness :
  EMBED_BATCH (RUNTIME example_world_negative) < 0 /\
  @store_chunks (example_collab 4) Ingest example_texts example_meta
                example_world_negative
  = (Ok 0%nat, example_world_negative).
Proof.
  assert (H : EMBED_BATCH (RUNTIME example_world_negative) < 0) by (cbn; lia).
  split; [exact H|].
  exact (proj2 (@store_chunks_bad_embed_batch (example_collab 4) Ingest
                  example_texts example_meta example_world_negative) H).
Defined.

(** ** File names and content types of URL documents *)

Lemma before_first_in (sep c : ascii) (s : str) :
  In c (before_first sep s) -> In c s /\ c <> sep.
Proof.
  induction s as [|d s IH]; cbn; [tauto|].
  destruct (Ascii.eqb d sep) eqn:E; cbn; [tauto|].
  intros [<-|H].
  - split; [now left|]. intros ->. now rewrite Ascii.eqb_refl in E.
  - destruct (IH H). split; [now right|assumption].
Qed.

Lemma lstrip_char_in (ch c : ascii) (s : str) :
  In c (lstrip_char ch s) -> In c s.
Proof.
  induction s as [|d s IH]; cbn; [tauto|].
  destruct (Ascii.eqb d ch); [intros H; right; exact (IH H)|tauto].
Qed.

(** X17: the file name [ingest_urls] stores for a URL is never empty and
    contains neither a slash nor a question mark. *)
Theorem fname_of_clean (u : str) :
  fname_of u <> [] /\
  ~ In "/"%char (fname_of u) /\ ~ In "?"%char (fname_of u).
Proof.
  unfold fname_of.
  set (n := after_last "/" (rstrip_char "/" (before_first "?" u))).
  assert (Hslash : ~ In "/"%char n).
  { unfold n, after_last. intros H. apply (proj2 (in_rev _ _)) in H.
    apply before_first_in in H as (_ & H). now apply H. }
  assert (Hq : ~ In "?"%char n).
  { unfold n, after_last, rstrip_char. intros H.
    apply (proj2 (in_rev _ _)) in H.
    apply before_first_in in H as (H & _).
    apply (proj2 (in_rev _ _)) in H. apply (proj2 (in_rev _ _)) in H.
    apply lstrip_char_in in H.
    apply (proj2 (in_rev _ _)) in H.
    apply before_first_in in H as (_ & H). now apply H. }
  destruct n as [|c n'] eqn:En; cbn [truthy].
  - split; [discriminate|]. split; vm_compute; intuition discriminate.
  - split; [discriminate|]. split; assumption.
Qed.

Lemma lower_char_idem (c : ascii) : lower_char (lower_char c) = lower_char c.
Proof.
  destruct c as [[] [] [] [] [] [] [] []]; reflexivity.
Qed.

Lemma lower_idem (s : str) : lower (lower s) = lower s.
Proof.
  unfold lower. rewrite map_map. apply map_ext, lower_char_idem.
Qed.

Lemma lower_char_slash (c : ascii) :
  Ascii.eqb (lower_char c) "/" = Ascii.eqb c "/".
Proof.
  destruct c as [[] [] [] [] [] [] [] []]; reflexivity.
Qed.

(** X18: the dispatch of [extract_text] does not depend on the case of
    the file name or of the content type: lowering either beforehand
    changes nothing. *)
Theorem extract_text_case_insensitive {C : Collab}
        (filename content_type : option str) (b : bytes) :
  extract_text (option_map lower filename) (option_map lower content_type) b
  = extract_text filename content_type b.
Proof.
  unfold extract_text.
  assert (H : forall x : option str,
             lower (or_empty (option_map lower x)) = lower (or_empty x))
    by (intros [s|]; cbn; [apply lower_idem|reflexivity]).
  now rewrite !H.
Qed.

Lemma before_first_absent (sep : ascii) (s : str) :
  ~ In sep s -> before_first sep s = s.
Proof.
  induction s as [|d s IH]; intros H; [reflexivity|].
  cbn. destruct (Ascii.eqb d sep) eqn:E.
  - apply Ascii.eqb_eq in E. subst d. exfalso. apply H. now left.
  - f_equal. apply IH. intros H'. apply H. now right.
Qed.

Lemma startswith_nil (s : str) : startswith s [] = true.
Proof. now destruct s. Qed.

Lemma rstrip_char_no_trailing (ch : ascii) (u : str) :
  endswith u [ch] = false -> rstrip_char ch u = u.
Proof.
  unfold endswith, rstrip_char. cbn [rev app]. intros H.
  destruct (rev u) as [|d r] eqn:Er.
  - cbn. rewrite <- (rev_involutive u), Er. reflexivity.
  - cbn [startswith] in H. rewrite startswith_nil, andb_true_r in H.
    cbn [lstrip_char].
    rewrite Ascii.eqb_sym, H. rewrite <- Er. apply rev_involutive.
Qed.

Lemma startswith_before_first (sep : ascii) (p : str) :
  ~ In sep p ->
  forall r : str, startswith (before_first sep r) p = startswith r p.
Proof.
  induction p as [|c p IH]; intros Hp r; [now destruct (before_first sep r), r|].
  destruct r as [|d r]; [reflexivity|].
  cbn [before_first]. destruct (Ascii.eqb d sep) eqn:E.
  - apply Ascii.eqb_eq in E. subst d. cbn.
    destruct (Ascii.eqb c sep) eqn:Ec; [|reflexivity].
    apply Ascii.eqb_eq in Ec. subst c. exfalso. apply Hp. now left.
  - cbn. f_equal. apply IH. intros H. apply Hp. now right.
Qed.

Lemma endswith_after_last (sep : ascii) (s suffix : str) :
  ~ In sep suffix ->
  endswith (after_last sep s) suffix = endswith s suffix.
Proof.
  intros H. unfold endswith, after_last. rewrite rev_involutive.
  apply startswith_before_first. now rewrite <- in_rev.
Qed.

Lemma before_first_lower (r : str) :
  before_first "/" (lower r) = lower (before_first "/" r).
Proof.
  induction r as [|d r IH]; [reflexivity|].
  cbn. rewrite lower_char_slash. destruct (Ascii.eqb d "/"); [reflexivity|].
  cbn. f_equal. exact IH.
Qed.

Lemma after_last_lower (s : str) :
  after_last "/" (lower s) = lower (after_last "/" s).
Proof.
  unfold after_last, lower. rewrite <- map_rev.
  change (map lower_char (rev s)) with (lower (rev s)).
  rewrite before_first_lower. unfold lower. now rewrite map_rev.
Qed.

Section ContentTypeFacts.
Context {C : Collab}.

(** The content type inferred from a name never overrides what the name
    itself selects. *)
Lemma dispatch_ctype_of (name : str) (b : bytes) :
  extract_dispatch name (lower (ctype_of name)) b = extract_dispatch name [] b.
Proof.
  unfold extract_dispatch, ctype_of.
  destruct (endswith name (lit ".pdf")); [reflexivity|].
  destruct (endswith name (lit ".docx")); [reflexivity|].
  destruct (endswith name (lit ".pptx")); [reflexivity|].
  destruct (endswith name (lit ".xlsx")).
  { destruct (endswith name (lit ".csv")); reflexivity. }
  destruct (endswith name (lit ".xls")).
  { destruct (endswith name (lit ".csv")); reflexivity. }
  destruct (endswith name (lit ".csv")); [reflexivity|].
  destruct (endswith name (lit ".md")); [reflexivity|].
  destruct (endswith name (lit ".txt")); reflexivity.
Qed.

(** X19: for a URL that has no query string and does not end in a slash,
    the content type [ingest_urls] infers from the URL never changes the
    extraction: the document is extracted exactly as an upload of the
    same file name without any content type. *)
Theorem url_content_type_follows_name (u : str) (b : bytes) :
  u <> [] -> ~ In "?"%char u -> endswith u (lit "/") = false ->
  fname_of u = after_last "/" u /\
  extract_text (Some (fname_of u)) (Some (ctype_of (lower u))) b
  = extract_text (Some (fname_of u)) None b.
Proof.
  intros Hne Hq Hsl.
  assert (Hf : fname_of u = after_last "/" u).
  { unfold fname_of. rewrite before_first_absent by exact Hq.
    rewrite rstrip_char_no_trailing by exact Hsl.
    unfold after_last. unfold endswith in Hsl.
    change (rev (lit "/")) with ["/"%char] in Hsl.
    destruct (rev u) as [|d r] eqn:Er.
    - exfalso. apply Hne. rewrite <- (rev_involutive u), Er. reflexivity.
    - cbn [startswith] in Hsl. rewrite startswith_nil, andb_true_r in Hsl.
      cbn [before_first].
      rewrite Ascii.eqb_sym, Hsl. cbn [rev].
      destruct (rev (before_first "/" r) ++ [d]) eqn:E;
        [destruct (rev (before_first "/" r)); discriminate|reflexivity]. }
  split; [exact Hf|].
  unfold extract_text. cbn [or_empty]. rewrite Hf, <- after_last_lower.
  set (l := lower u). set (n := after_last "/" l).
  assert (Hends : forall e : str, ~ In "/"%char e -> endswith n e = endswith l e)
    by (intros e He; apply endswith_after_last, He).
  assert (Hct : ctype_of l = ctype_of n).
  { unfold ctype_of.
    rewrite !Hends by (vm_compute; intuition discriminate). reflexivity. }
  rewrite Hct, dispatch_ctype_of. reflexivity.
Qed.

Lemma fetch_trace_empty_bearer (urls : list str) :
  forall o : remote, fetch_trace urls (Some []) o = fetch_trace urls None o.
Proof.
  induction urls as [|u rest IH]; intros o; [reflexivity|].
  cbn [fetch_trace]. change (auth_headers (Some [])) with (auth_headers None).
  destruct (requests_get u (auth_headers None) o) as [r o'].
  now rewrite IH.
Qed.

(** X20: an empty bearer token is no token: [ingest_urls] sends no
    [Authorization] header for it and behaves exactly as when the request
    has no [bearer] at all. *)
Theorem ingest_urls_empty_bearer (proj : str) (urls : list str) (w : World) :
  auth_headers (Some []) = [] /\
  ingest_urls (mkUrlIngest proj urls (Some [])) w
  = ingest_urls (mkUrlIngest proj urls None) w.
Proof.
  split; [reflexivity|].
  unfold ingest_urls. cbn [ui_urls ui_bearer ui_project].
  rewrite !bind_run, !fetch_urls_spec, fetch_trace_empty_bearer. reflexivity.
Qed.

End ContentTypeFacts.

(** An instance of X19: a URL in capitals. *)
Lemma url_content_type_follows_name_witness :
  lit "http://h/docs/REPORT.CSV" <> [] /\
  ~ In "?"%char (lit "http://h/docs/REPORT.CSV") /\
  endswith (lit "http://h/docs/REPORT.CSV") (lit "/") = false /\
  fname_of (lit "http://h/docs/REPORT.CSV") = lit "REPORT.CSV".
Proof.
  assert (H1 : lit "http://h/docs/REPORT.CSV" <> []) by discriminate.
  assert (H2 : ~ In "?"%char (lit "http://h/docs/REPORT.CSV"))
    by (vm_compute; intuition discriminate).
  assert (H3 : endswith (lit "http://h/docs/REPORT.CSV") (lit "/") = false)
    by reflexivity.
  split; [exact H1|]. split; [exact H2|]. split; [exact H3|].
  rewrite (proj1 (@url_content_type_follows_name (example_collab 4)
                    (lit "http://h/docs/REPORT.CSV") [] H1 H2 H3)).
  reflexivity.
Defined.

(** ** The answer pipeline *)

Lemma startswith_app (p b : str) : startswith (p ++ b) p = true.
Proof.
  induction p as [|c p IH]; [now destruct b|].
  cbn. now rewrite Ascii.eqb_refl, IH.
Qed.

(** A string contains each of its substrings. *)
Lemma contains_infix (a t b : str) : contains (a ++ t ++ b) t = true.
Proof.
  induction a as [|c a IH].
  - cbn [app]. destruct (t ++ b) eqn:E; cbn [contains];
      rewrite <- E, startswith_app; reflexivity.
  - cbn [app contains]. rewrite IH. apply orb_true_r.
Qed.

Lemma join_infix (sep t : str) (parts : list str) :
  In t parts -> exists a b : str, join sep parts = a ++ t ++ b.
Proof.
  induction parts as [|p rest IH]; [intros []|].
  intros [->|Hin].
  - exists []. destruct rest as [|q rest'].
    + exists []. cbn. now rewrite app_nil_r.
    + exists (sep ++ join sep (q :: rest')). reflexivity.
  - destruct rest as [|q rest']; [destruct Hin|].
    destruct (IH Hin) as (a & b & E).
    exists (p ++ sep ++ a), b. cbn [join] in E |- *.
    rewrite E. now rewrite <- !app_assoc.
Qed.

Section ChatFacts.
Context {C : Collab} {K : ChatCollab}.

(** X21: what [chat] returns and what it sent.  A call that returns has
    embedded the question, searched the collection with that vector and
    [top_k] as the limit, and sent to the generation service the prompt
    built from the hits; that prompt contains the question and the text
    of every hit verbatim; the answer is the service's response (empty
    when the response has none); there is one source per hit, in the
    order of the hits, with the hit's score and file.  The [project] of
    the query plays no part. *)
Theorem chat_grounded (q : Query) (w w' : World) (resp : ChatResponse) :
  chat q w = (Ok resp, w') ->
  exists (v : vec) (o1 : remote) (hits : list ScoredPoint) (o2 : remote)
         (ans : option str),
    let prompt := chat_prompt (join [newline; newline] (map hit_text hits))
                              (question q) in
    post_embeddings (question q) (outside w) = (Ok v, o1) /\
    qdrant_search v (top_k q) o1 = (Ok hits, o2) /\
    post_generate prompt o2 = (Ok ans, outside w') /\
    answer resp = or_empty ans /\
    sources resp
    = map (fun h => mkSource (score h) (dict_get (hit_payload h) (lit "file")))
          hits /\
    contains prompt (question q) = true /\
    (forall h : ScoredPoint, In h hits -> contains prompt (hit_text h) = true) /\
    (forall p : str, chat (mkQuery (question q) (top_k q) p) w = (Ok resp, w')).
Proof.
  intros E.
  assert (Hproj : forall p : str,
             chat (mkQuery (question q) (top_k q) p) w = (Ok resp, w'))
    by (intros p; exact E).
  unfold chat, embed in E.
  step_bind E v w1 E1; [|discriminate].
  apply call_same_process in E1 as (_ & E1).
  step_bind E hits w2 E2; [|discriminate].
  apply call_same_process in E2 as (_ & E2).
  cbv zeta in E. step_bind E ans w3 E3; [|discriminate].
  apply call_same_process in E3 as (_ & E3).
  unfold ret in E. injection E as <- <-.
  exists v, (outside w1), hits, (outside w2), ans. cbv zeta.
  split; [exact E1|]. split; [exact E2|]. split; [exact E3|].
  split; [reflexivity|]. split; [reflexivity|]. split; [|split; [|exact Hproj]].
  - unfold chat_prompt.
    set (ctx := join [newline; newline] (map hit_text hits)).
    set (pre := lit "You are a helpful assistant. Use the context to answer concisely. ").
    set (pre2 := lit "If the answer is not in the context, say you don't know.").
    replace (pre ++ pre2 ++ [newline; newline] ++ lit "Context:" ++ [newline]
                 ++ ctx ++ [newline; newline]
                 ++ lit "Question: " ++ question q ++ [newline] ++ lit "Answer:")
      with ((pre ++ pre2 ++ [newline; newline] ++ lit "Context:" ++ [newline]
                 ++ ctx ++ [newline; newline] ++ lit "Question: ")
              ++ question q ++ ([newline] ++ lit "Answer:"))
      by (now rewrite <- !app_assoc).
    apply contains_infix.
  - intros h Hh.
    destruct (join_infix [newline; newline] (hit_text h) (map hit_text hits)
                         (in_map hit_text _ _ Hh)) as (a & b & ->).
    unfold chat_prompt.
    set (pre := lit "You are a helpful assistant. Use the context to answer concisely. ").
    set (pre2 := lit "If the answer is not in the context, say you don't know.").
    replace (pre ++ pre2 ++ [newline; newline] ++ lit "Context:" ++ [newline]
                 ++ (a ++ hit_text h ++ b) ++ [newline; newline]
                 ++ lit "Question: " ++ question q ++ [newline] ++ lit "Answer:")
      with ((pre ++ pre2 ++ [newline; newline] ++ lit "Context:" ++ [newline] ++ a)
              ++ hit_text h
              ++ (b ++ [newline; newline] ++ lit "Question: " ++ question q
                    ++ [newline] ++ lit "Answer:"))
      by (now rewrite <- !app_assoc).
    apply contains_infix.
Qed.

(** X22: [chat] gives no partial answer.  An exception of the embedding
    call, of the search or of the generation call is the exception of
    [chat]; after a failed embedding the store is not searched, and after
    a failed search nothing is generated. *)
Theorem chat_fails_with_its_services (q : Query) (w : World) :
  (forall (e : exn) (o : remote),
      post_embeddings (question q) (outside w) = (Raise e, o) ->
      chat q w = (Raise e, set_outside w o)) /\
  (forall (v : vec) (o1 : remote) (e : exn) (o2 : remote),
      post_embeddings (question q) (outside w) = (Ok v, o1) ->
      qdrant_search v (top_k q) o1 = (Raise e, o2) ->
      chat q w = (Raise e, set_outside w o2)) /\
  (forall (v : vec) (o1 : remote) (hits : list ScoredPoint) (o2 : remote)
          (e : exn) (o3 : remote),
      post_embeddings (question q) (outside w) = (Ok v, o1) ->
      qdrant_search v (top_k q) o1 = (Ok hits, o2) ->
      post_generate (chat_prompt (join [newline; newline] (map hit_text hits))
                                 (question q)) o2 = (Raise e, o3) ->
      chat q w = (Raise e, set_outside w o3)).
Proof.
  unfold chat, embed. split; [|split].
  - intros e o E1. rewrite bind_run. unfold call. now rewrite E1.
  - intros v o1 e o2 E1 E2. rewrite bind_run. unfold call at 1. rewrite E1.
    rewrite bind_run. unfold call at 1. cbn [outside set_outside]. now rewrite E2.
  - intros v o1 hits o2 e o3 E1 E2 E3. rewrite bind_run. unfold call at 1.
    rewrite E1, bind_run. unfold call at 1. cbn [outside set_outside].
    rewrite E2. cbv zeta. rewrite bind_run. unfold call.
    cbn [outside set_outside]. now rewrite E3.
Qed.

End ChatFacts.

(** An instance of X21: a question answered from two hits, the second of
    which has no text. *)
Lemma chat_grounded_witness :
  exists (resp : ChatResponse) (w' : @World (example_collab 4)),
    @chat (example_collab 4) (example_chat 4)
          (mkQuery (lit "what is alpha?") 4 (lit "default")) (example_world 4)
    = (Ok resp, w') /\
    contains (answer resp) (lit "alpha") = true /\
    List.length (sources resp) = 2%nat.
Proof.
  destruct (@chat (example_collab 4) (example_chat 4)
                  (mkQuery (lit "what is alpha?") 4 (lit "default"))
                  (example_world 4)) as [[resp|e] w'] eqn:E;
    [|vm_compute in E; discriminate].
  exists resp, w'. split; [reflexivity|].
  destruct (@chat_grounded (example_collab 4) (example_chat 4) _ _ _ _ E)
    as (v & o1 & hits & o2 & ans & _ & Hs & Hg & Ha & Hso & _ & Hh & _).
  cbn in Hs. injection Hs as <- <-.
  cbn in Hg. injection Hg as <- _.
  rewrite Ha, Hso. split; [|reflexivity].
  apply (Hh (mkHit 1%float [(lit "text", lit "alpha"); (lit "file", lit "a.txt")])).
  now left.
Defined.

(** ** A negative upsert batch size *)

Lemma groups_length_le {A : Type} (fuel : nat) :
  forall (n : nat) (items : list A),
    Forall (fun g => (List.length g <= List.length items)%nat)
           (groups fuel n items).
Proof.
  induction fuel as [|fuel IH]; intros n items; [constructor|].
  destruct items as [|a items]; [constructor|].
  cbn [groups]. constructor.
  - rewrite length_firstn. lia.
  - eapply Forall_impl; [|apply IH].
    cbn beta. intros g Hg. rewrite length_skipn in Hg. lia.
Qed.

Section NegativeUpsert.
Context {C : Collab}.

(** The world a returning embedding loop leaves: every non-blank text
    has been sent, in order. *)
Lemma embed_each_outside (b : list str) :
  forall (w w' : World) (vs : list vec),
    embed_each b w = (Ok vs, w') ->
    w' = set_outside w (fold_left (fun o t => after_embedding t o) b (outside w)).
Proof.
  induction b as [|t rest IH]; intros w w' vs E.
  - cbn in E. unfold ret in E. injection E as _ <-. cbn.
    symmetry. apply set_outside_same.
  - cbn [embed_each] in E. cbn [fold_left].
    step_bind E v w1 E1; [|discriminate].
    assert (Hw1 : w1 = set_outside w (after_embedding t (outside w))).
    { unfold after_embedding. destruct (nonblank t).
      - unfold call in E1.
        destruct (post_embeddings t (outside w)) as [r o].
        now injection E1 as _ <-.
      - unfold ret in E1. injection E1 as _ <-.
        symmetry. apply set_outside_same. }
    step_bind E vs' w2 E2; [|discriminate].
    unfold ret in E. injection E as _ <-.
    apply IH in E2. rewrite E2, Hw1. cbn [outside set_outside].
    apply set_outside_twice.
Qed.

Lemma call_total_uuid4 (w : World) :
  call_total uuid4 w = (Ok (fst (uuid4 (outside w))),
                        set_outside w (snd (uuid4 (outside w)))).
Proof. unfold call_total. now destruct (uuid4 (outside w)). Qed.

(** The world a returning point-building loop leaves: one identifier has
    been drawn per vector. *)
Lemma ingest_points_outside (vecs : list vec) :
  forall (ch_batch : list str) (meta : list Meta) (total_points i : nat)
         (pts out : list PointStruct) (w w' : World),
    ingest_points ch_batch meta total_points i vecs pts w = (Ok out, w') ->
    w' = set_outside w (after_ids (List.length vecs) (outside w)).
Proof.
  induction vecs as [|v vecs IH]; intros ch_batch meta total i pts out w w' E.
  - cbn in E. unfold ret in E. injection E as _ <-. cbn.
    symmetry. apply set_outside_same.
  - cbn [ingest_points] in E. step_bind E m w1 E1; [|discriminate].
    apply lift_res_run in E1 as (_ & ->).
    rewrite bind_run, call_total_uuid4 in E.
    step_bind E t w3 E3; [|discriminate].
    apply lift_res_run in E3 as (_ & ->).
    apply IH in E. rewrite E. cbn [List.length after_ids outside set_outside].
    apply set_outside_twice.
Qed.

Lemma ingest_urls_points_outside (vecs : list vec) :
  forall (ch_batch : list str) (meta : list Meta) (total_points i : nat)
         (pts out : list PointStruct) (w w' : World),
    ingest_urls_points ch_batch meta total_points i vecs pts w = (Ok out, w') ->
    w' = set_outside w (after_ids (List.length vecs) (outside w)).
Proof.
  induction vecs as [|v vecs IH]; intros ch_batch meta total i pts out w w' E.
  - cbn in E. unfold ret in E. injection E as _ <-. cbn.
    symmetry. apply set_outside_same.
  - cbn [ingest_urls_points] in E.
    rewrite bind_run, call_total_uuid4 in E.
    step_bind E t w2 E2; [|discriminate].
    apply lift_res_run in E2 as (_ & ->).
    step_bind E m w3 E3; [|discriminate].
    apply lift_res_run in E3 as (_ & ->).
    apply IH in E. rewrite E. cbn [List.length after_ids outside set_outside].
    apply set_outside_twice.
Qed.

Lemma make_points_outside (ep : entry_point) (ch_batch : list str)
      (meta : list Meta) (total_points : nat) (vecs : list vec)
      (pts : list PointStruct) (w w' : World) :
  make_points ep ch_batch meta total_points vecs w = (Ok pts, w') ->
  w' = set_outside w (after_ids (List.length vecs) (outside w)).
Proof.
  destruct ep; cbn [make_points]; intros E.
  - eapply ingest_points_outside, E.
  - eapply ingest_urls_points_outside, E.
Qed.

Lemma store_loop_negative_upsert (ep : entry_point) (batches : list (list str)) :
  services_up ->
  forall (meta : list Meta) (total_points : nat) (w : World),
    UPSERT_BATCH (RUNTIME w) < 0 ->
    Forall (fun b => (total_points + List.length b <= List.length meta)%nat)
           batches ->
    store_loop ep batches meta total_points w
    = (Ok total_points, set_outside w (after_batches batches (outside w))).
Proof.
  intros (Hemb & _).
  induction batches as [|b rest IH]; intros meta total w Hub Hall.
  - cbn. unfold ret. now rewrite set_outside_same.
  - inversion Hall as [|b' rest' Hb Hrest]; subst.
    cbn [store_loop].
    destruct (embed_each_returns b (fun t o _ _ => Hemb t o) w)
      as (vecs & w1 & E1).
    pose proof (embed_each_outside _ _ _ _ E1) as Hw1.
    rewrite <- embed_batch_each in E1.
    rewrite (bind_ok _ _ _ _ _ E1).
    apply embed_batch_spec in E1 as (_ & Hv).
    destruct (Hv vecs eq_refl) as (Hlv & _).
    destruct (make_points_returns ep b meta total vecs w1 ltac:(lia) ltac:(lia))
      as (pts & w2 & E2).
    pose proof (make_points_outside _ _ _ _ _ _ _ _ E2) as Hw2.
    rewrite (bind_ok _ _ _ _ _ E2).
    assert (Hw : w2 = set_outside w (after_batch b (outside w))).
    { rewrite Hw2, Hw1, Hlv. cbn [outside set_outside].
      rewrite set_outside_twice. reflexivity. }
    clear Hw1 Hw2 E2. subst w2.
    unfold read_runtime at 1. rewrite bind_run. cbn [RUNTIME set_outside].
    unfold chunk_list.
    destruct (UPSERT_BATCH (RUNTIME w) =? 0) eqn:E0;
      [apply Z.eqb_eq in E0; lia|].
    apply Z.ltb_lt in Hub. rewrite Hub. apply Z.ltb_lt in Hub.
    unfold lift_res at 1. rewrite bind_run. cbn [upsert_loop].
    unfold ret at 1. rewrite bind_run.
    rewrite IH by (cbn [RUNTIME set_outside]; assumption).
    cbn [outside set_outside after_batches fold_left].
    now rewrite set_outside_twice.
Qed.

(** X23: with a negative [UPSERT_BATCH] (which only the environment can
    set) and the services answering, the second half of every ingestion
    entry point embeds every chunk, sends nothing to the store and
    returns 0, so the caller is told [ok] with [chunks = 0].  The world
    it leaves is the one in which, batch after batch of [EMBED_BATCH]
    chunks, every non-blank chunk has been sent to the embedding service
    in order and one identifier has been drawn per chunk; the store has
    received no request, and the points and the configuration are as
    before. *)
Theorem store_chunks_negative_upsert_batch (ep : entry_point)
        (all_chunks : list str) (meta : list Meta) (w : World) :
  services_up ->
  0 < EMBED_BATCH (RUNTIME w) -> UPSERT_BATCH (RUNTIME w) < 0 ->
  (List.length all_chunks <= List.length meta)%nat ->
  exists (batches : list (list str)) (w' : World),
    chunk_list all_chunks (EMBED_BATCH (RUNTIME w)) = Ok batches /\
    List.concat batches = all_chunks /\
    store_chunks ep all_chunks meta w = (Ok 0%nat, w') /\
    outside w' = after_batches batches (outside w) /\
    upserted w' = upserted w /\ RUNTIME w' = RUNTIME w /\
    collections w' = collections w.
Proof.
  intros Hup Heb Hub Hlen.
  destruct (chunk_list_concat all_chunks (EMBED_BATCH (RUNTIME w)) Heb)
    as (batches & Hb & Hcat).
  exists batches, (set_outside w (after_batches batches (outside w))).
  split; [exact Hb|]. split; [exact Hcat|].
  split; [|repeat split].
  unfold store_chunks. unfold read_runtime at 1. rewrite bind_run, Hb.
  unfold lift_res at 1. rewrite bind_run.
  apply store_loop_negative_upsert; [exact Hup|exact Hub|].
  unfold chunk_list in Hb.
  destruct (EMBED_BATCH (RUNTIME w) =? 0); [discriminate|].
  destruct (EMBED_BATCH (RUNTIME w) <? 0) eqn:E1;
    [apply Z.ltb_lt in E1; lia|].
  injection Hb as <-.
  eapply Forall_impl; [|apply groups_length_le].
  cbn beta. intros g Hg. lia.
Qed.

End NegativeUpsert.

(** An instance of X23: [UPSERT_BATCH=-1] in the environment; of the
    three example texts one is not blank, so the run makes one embedding
    request and draws three identifiers, which leaves the counter of the
    example world at four. *)
Lemma store_chunks_negative_upsert_batch_witness :
  @services_up (example_collab 4) /\
  0 < EMBED_BATCH (RUNTIME example_world_negative_upsert) /\
  UPSERT_BATCH (RUNTIME example_world_negative_upsert) < 0 /\
  (List.length example_texts <= List.length example_meta)%nat /\
  exists w' : @World (example_collab 4),
    @store_chunks (example_collab 4) IngestUrls example_texts example_meta
                  example_world_negative_upsert = (Ok 0%nat, w') /\
    outside w' = 4%nat /\ upserted w' = [].
Proof.
  assert (Hup : @services_up (example_collab 4)) by (split; intros; reflexivity).
  assert (H1 : 0 < EMBED_BATCH (RUNTIME example_world_negative_upsert))
    by reflexivity.
  assert (H2 : UPSERT_BATCH (RUNTIME example_world_negative_upsert) < 0)
    by reflexivity.
  assert (H3 : (List.length example_texts <= List.length example_meta)%nat)
    by (cbn; lia).
  split; [exact Hup|]. split; [exact H1|]. split; [exact H2|]. split; [exact H3|].
  destruct (@store_chunks_negative_upsert_batch (example_collab 4) IngestUrls
              example_texts example_meta example_world_negative_upsert
              Hup H1 H2 H3) as (batches & w' & Hb & _ & E & Ho & Hu & _).
  exists w'. split; [exact E|]. split; [|exact Hu].
  rewrite Ho. vm_compute in Hb. injection Hb as <-. vm_compute. reflexivity.
Defined.

(** An instance of X13: the request for three URLs. *)
Lemma ingestion_only_appends_witness :
  exists new : list PointStruct,
    upserted (snd (@ingest_urls (example_collab 4) example_request (example_world 4)))
    = upserted (example_world 4) ++ new.
Proof.
  destruct (@ingest_urls (example_collab 4) example_request (example_world 4))
    as [r w'] eqn:E.
  apply (proj2 (@ingestion_only_appends (example_collab 4))) in E
    as (_ & _ & new & Hn).
  exists new. exact Hn.
Defined.

(** An instance of X22: the embedding service refuses the question. *)
Lemma chat_fails_with_its_services_witness :
  @post_embeddings failing_collab (lit "boom") 0%nat
    = (Raise (LibraryError "503"), 1%nat) /\
  @chat failing_collab failing_chat (mkQuery (lit "boom") 4 (lit "default"))
        failing_world
  = (Raise (LibraryError "503"), @set_outside failing_collab failing_world 1%nat).
Proof.
  split; [reflexivity|].
  exact (proj1 (@chat_fails_with_its_services failing_collab failing_chat
                  (mkQuery (lit "boom") 4 (lit "default")) failing_world)
               (LibraryError "503") 1%nat eq_refl).
Defined.

(** ** The guarded metadata lookup of [ingest] *)

Section GuardFacts.
Context {C : Collab}.





End GuardFacts.

